(** * TrustShield core engine (local-business-app/js/app.js)

    A shallow embedding of the scoring pipeline of [app.js]:
    [computeGlobalAverage], [calculateTrustScore], [calculateVolatility],
    [extractFeatures] and [neuralNetworkPredict].

    Modelling conventions.
    - A JavaScript number is a value of [num]: an exact real, [NaN], or one
      of the two infinities.  Arithmetic is the arithmetic of real numbers
      extended with the IEEE rules for [NaN] and the infinities (0/0 is
      [NaN], x/0 is an infinity, ...).  Rounding error, overflow, underflow
      and the sign of zero of binary64 are not modelled.
    - A property that may be missing on an object ([b.entropy] before the
      first evaluation) is an [option num]; [None] is [undefined].
    - Business objects and the arrays of ratings they own live in a store
      and are passed by reference, as in the source.  Arrays that are only
      read after they are built ([map], [filter], [slice] results) are plain
      lists.
    - A rating's [date] is the time value of [new Date(r.date)], an integer
      number of milliseconds; unparseable dates are not modelled. *)

From stdpp Require Import gmap strings list.
From Stdlib Require Import Reals Lra ZArith Permutation Sorted.

(** ** JavaScript numbers *)

Inductive num : Type :=
| NaN
| PosInf
| NegInf
| Num (r : R).

Inductive sign := Neg | Zero | Pos.

Definition Rsign (r : R) : sign :=
  if Rlt_dec 0 r then Pos else if Rlt_dec r 0 then Neg else Zero.

Definition of_Z (z : Z) : num := Num (IZR z).
Definition of_nat (n : nat) : num := Num (INR n).

Definition num_neg (a : num) : num :=
  match a with
  | NaN => NaN
  | PosInf => NegInf
  | NegInf => PosInf
  | Num r => Num (- r)
  end.

Definition num_add (a b : num) : num :=
  match a, b with
  | NaN, _ | _, NaN => NaN
  | PosInf, NegInf | NegInf, PosInf => NaN
  | PosInf, _ | _, PosInf => PosInf
  | NegInf, _ | _, NegInf => NegInf
  | Num x, Num y => Num (x + y)
  end.

Definition num_sub (a b : num) : num := num_add a (num_neg b).

(** The infinity carrying the product of two signs; [NaN] when one is zero. *)
Definition inf_of_signs (s t : sign) : num :=
  match s, t with
  | Zero, _ | _, Zero => NaN
  | Pos, Pos | Neg, Neg => PosInf
  | Pos, Neg | Neg, Pos => NegInf
  end.

Definition num_sign (a : num) : option sign :=
  match a with
  | NaN => None
  | PosInf => Some Pos
  | NegInf => Some Neg
  | Num r => Some (Rsign r)
  end.

Definition num_mul (a b : num) : num :=
  match a, b with
  | Num x, Num y => Num (x * y)
  | _, _ =>
      match num_sign a, num_sign b with
      | Some s, Some t => inf_of_signs s t
      | _, _ => NaN
      end
  end.

(** A zero divisor counts as [+0]. *)
Definition num_div (a b : num) : num :=
  match a, b with
  | NaN, _ | _, NaN => NaN
  | Num x, Num y =>
      match Rsign y with
      | Zero => inf_of_signs (Rsign x) Pos
      | _ => Num (x / y)
      end
  | Num _, _ => Num 0
  | _, Num y =>
      match num_sign a with
      | Some s => inf_of_signs s (match Rsign y with Neg => Neg | _ => Pos end)
      | None => NaN
      end
  | _, _ => NaN
  end.

(** [a > b]; false as soon as one side is [NaN]. *)
Definition num_gt (a b : num) : bool :=
  match a, b with
  | NaN, _ | _, NaN => false
  | PosInf, PosInf | NegInf, _ | _, PosInf => false
  | PosInf, _ | _, NegInf => true
  | Num x, Num y => if Rlt_dec y x then true else false
  end.

Definition Math_max (a b : num) : num :=
  match a, b with
  | NaN, _ | _, NaN => NaN
  | PosInf, _ | _, PosInf => PosInf
  | NegInf, c | c, NegInf => c
  | Num x, Num y => Num (Rmax x y)
  end.

Definition Math_min (a b : num) : num :=
  match a, b with
  | NaN, _ | _, NaN => NaN
  | NegInf, _ | _, NegInf => NegInf
  | PosInf, c | c, PosInf => c
  | Num x, Num y => Num (Rmin x y)
  end.

Definition Math_log (a : num) : num :=
  match a with
  | NaN | NegInf => NaN
  | PosInf => PosInf
  | Num r =>
      match Rsign r with
      | Neg => NaN
      | Zero => NegInf
      | Pos => Num (ln r)
      end
  end.

Definition Math_exp (a : num) : num :=
  match a with
  | NaN => NaN
  | PosInf => PosInf
  | NegInf => Num 0
  | Num r => Num (exp r)
  end.

Definition Math_sqrt (a : num) : num :=
  match a with
  | NaN | NegInf => NaN
  | PosInf => PosInf
  | Num r =>
      match Rsign r with
      | Neg => NaN
      | _ => Num (sqrt r)
      end
  end.

(** [Math.pow] at a natural-number exponent (the source only uses 2). *)
Fixpoint Math_pow (a : num) (n : nat) : num :=
  match n with
  | O => Num 1
  | S O => a
  | S k => num_mul a (Math_pow a k)
  end.

(** [Math.round]: the nearest integer, halves going up. *)
Definition Math_round (a : num) : num :=
  match a with
  | Num r => Num (IZR (Int_part (r + / 2)))
  | _ => a
  end.

(** ToNumber of a possibly missing property. *)
Definition to_num (o : option num) : num :=
  match o with
  | Some x => x
  | None => NaN
  end.

(** ** Store, references and the evaluation monad *)

Definition loc := positive.

(** [{score, date}] *)
Record rating := Rating { score : Z; date : Z }.

(** A business object.  [b_ratings] is a reference to its array of ratings;
    the last three fields are the properties written by
    [calculateTrustScore] and are missing on a freshly loaded object. *)
Record business := Business {
  b_name : string;
  b_category : string;
  b_ratings : loc;
  b_rawAverage : option num;
  b_entropy : option num;
  b_finalTrust : option num
}.

(** The two globals of the script and the heap. *)
Record state := State {
  businessesData : list loc;
  globalAverage : num;
  objects : gmap loc business;
  arrays : gmap loc (list rating)
}.

Inductive exn := TypeError.

Inductive outcome (A : Type) : Type :=
| Ok (a : A) (σ : state)
| Throw (e : exn).
Arguments Ok {A} a σ.
Arguments Throw {A} e.

Definition M (A : Type) : Type := state → outcome A.

#[global] Instance M_ret : MRet M := λ A a σ, Ok a σ.
#[global] Instance M_bind : MBind M := λ A B f m σ,
  match m σ with
  | Ok a σ' => f a σ'
  | Throw e => Throw e
  end.

Definition raises {A} (o : outcome A) : Prop := ∃ e, o = Throw e.

Definition get_globalAverage : M num := λ σ, Ok (globalAverage σ) σ.
Definition get_businessesData : M (list loc) := λ σ, Ok (businessesData σ) σ.

Definition set_globalAverage (g : num) : M unit := λ σ,
  Ok tt (State (businessesData σ) g (objects σ) (arrays σ)).

(** Dereferencing an object or an array; a dangling reference stands for
    [undefined], on which a property access throws. *)
Definition getObject (b : loc) : M business := λ σ,
  match objects σ !! b with
  | Some o => Ok o σ
  | None => Throw TypeError
  end.

Definition getArray (a : loc) : M (list rating) := λ σ,
  match arrays σ !! a with
  | Some rs => Ok rs σ
  | None => Throw TypeError
  end.

Definition setObject (b : loc) (o : business) : M unit := λ σ,
  Ok tt (State (businessesData σ) (globalAverage σ) (<[b := o]> (objects σ)) (arrays σ)).

(** Property writes [b.rawAverage = x], [b.entropy = x], [b.finalTrust = x]. *)
Definition set_rawAverage (b : loc) (x : num) : M unit :=
  o ← getObject b;
  setObject b (Business (b_name o) (b_category o) (b_ratings o)
                        (Some x) (b_entropy o) (b_finalTrust o)).

Definition set_entropy (b : loc) (x : num) : M unit :=
  o ← getObject b;
  setObject b (Business (b_name o) (b_category o) (b_ratings o)
                        (b_rawAverage o) (Some x) (b_finalTrust o)).

Definition set_finalTrust (b : loc) (x : num) : M unit :=
  o ← getObject b;
  setObject b (Business (b_name o) (b_category o) (b_ratings o)
                        (b_rawAverage o) (b_entropy o) (Some x)).

Definition setArray (a : loc) (rs : list rating) : M unit := λ σ,
  Ok tt (State (businessesData σ) (globalAverage σ) (objects σ) (<[a := rs]> (arrays σ))).

(** A new array, at a reference not in use. *)
Definition allocArray (rs : list rating) : M loc := λ σ,
  let a := fresh (dom (arrays σ)) in
  Ok a (State (businessesData σ) (globalAverage σ) (objects σ) (<[a := rs]> (arrays σ))).

(** [[...a]] *)
Definition spread (a : loc) : M loc :=
  rs ← getArray a; allocArray rs.

(** *** Array.prototype.sort, stable, in place *)

(** [insert_sorted cmp x l] puts [x] in front of the first element it does
    not have to follow. *)
Fixpoint insert_sorted (cmp : rating → rating → Z) (x : rating) (l : list rating) : list rating :=
  match l with
  | [] => [x]
  | y :: l' => if (cmp x y <=? 0)%Z then x :: y :: l' else y :: insert_sorted cmp x l'
  end.

Definition stable_sort (cmp : rating → rating → Z) (l : list rating) : list rating :=
  foldr (insert_sorted cmp) [] l.

(** [a.sort(cmp)]: sorts the array [a] refers to and returns [a]. *)
Definition sort (a : loc) (cmp : rating → rating → Z) : M loc :=
  rs ← getArray a; _ ← setArray a (stable_sort cmp rs); mret a.

(** [a.slice(-n)]: a new array with the last [n] elements. *)
Definition slice_last (a : loc) (n : nat) : M (list rating) :=
  rs ← getArray a; mret (drop (length rs - n) rs).

(** [l.reduce((a,b)=>a+b,0)] *)
Definition sum_scores (l : list Z) : num :=
  foldl (λ a b, num_add a (of_Z b)) (Num 0) l.

(** ** The script *)

(** Bayesian prior weight. *)
Definition m : num := Num 15.

(** The body of [computeGlobalAverage]'s outer [forEach]. *)
Fixpoint collect_scores (all : list Z) (bs : list loc) : M (list Z) :=
  match bs with
  | [] => mret all
  | b :: bs' =>
      o ← getObject b;
      rs ← getArray (b_ratings o);
      collect_scores (foldl (λ all r, all ++ [score r]) all rs) bs'
  end.

Definition computeGlobalAverage : M unit :=
  bs ← get_businessesData;
  all ← collect_scores [] bs;
  set_globalAverage (num_div (sum_scores all) (of_nat (length all))).

(** [counts[i]++]: the cell becomes ToNumber of its old value plus one.
    An index past the end extends the array, leaving holes ([None]); a
    negative [i] names a property that is not an element, which [forEach]
    never visits, so the array is unchanged. *)
Definition counts_incr (counts : list (option num)) (i : Z) : list (option num) :=
  if (i <? 0)%Z then counts
  else
    let n := Z.to_nat i in
    let c := Some (num_add (to_num (mjoin (counts !! n))) (Num 1)) in
    if decide (n < length counts)%nat then <[n := c]> counts
    else counts ++ replicate (n - length counts) None ++ [c].

(** One step of [counts.forEach(c => ...)] in [calculateTrustScore];
    holes are skipped. *)
Definition entropy_step (v : num) (entropy : num) (c : option num) : num :=
  match c with
  | None => entropy
  | Some c =>
      if num_gt c (Num 0) then
        let p := num_div c v in
        num_sub entropy (num_mul p (Math_log p))
      else entropy
  end.

(** [(v/(v+m))*R + (m/(v+m))*globalAverage] *)
Definition bayes_smoothing (v R g : num) : num :=
  num_add (num_mul (num_div v (num_add v m)) R)
          (num_mul (num_div m (num_add v m)) g).

(** The entropy calculation of [calculateTrustScore]: [counts], filled by
    [ratings.forEach(r=>counts[r-1]++)], then [entropy], then
    [normalized = entropy/Math.log(5)]. *)
Definition normalized_entropy (scores : list Z) : num :=
  let v := of_nat (length scores) in
  let counts := foldl (λ counts r, counts_incr counts (r - 1))
                      (replicate 5 (Some (Num 0))) scores in
  let entropy := foldl (entropy_step v) (Num 0) counts in
  num_div entropy (Math_log (Num 5)).

Definition calculateTrustScore (b : loc) : M num :=
  o ← getObject b;
  rs ← getArray (b_ratings o);
  let scores := map score rs in
  let v := length scores in
  if decide (v = 0%nat) then mret (Num 0) else
  let R := num_div (sum_scores scores) (of_nat v) in
  g ← get_globalAverage;
  let bayes := bayes_smoothing (of_nat v) R g in
  let normalized := normalized_entropy scores in
  let score := num_add (num_mul (num_div bayes (Num 5)) (Num 80))
                       (num_mul normalized (Num 20)) in
  _ ← set_rawAverage b R;
  _ ← set_entropy b normalized;
  _ ← set_finalTrust b score;
  mret (Math_round score).

Definition calculateVolatility (b : loc) : M num :=
  o ← getObject b;
  rs ← getArray (b_ratings o);
  let scores := map score rs in
  let n := of_nat (length scores) in
  let avg := num_div (sum_scores scores) n in
  let variance :=
    num_div (foldl (λ sum r, num_add sum (Math_pow (num_sub (of_Z r) avg) 2))
                   (Num 0) scores) n in
  mret (Math_sqrt variance).

Record features := Features {
  fiveStarRatio : num;
  volatility : num;
  entropy : option num;
  recentFiveRatio : num
}.

(** [(a,b) => new Date(a.date) - new Date(b.date)] *)
Definition by_date (a b : rating) : Z := (date a - date b)%Z.

Definition extractFeatures (b : loc) : M features :=
  o ← getObject b;
  rs ← getArray (b_ratings o);
  let scores := map score rs in
  let total := length scores in
  let fiveStarRatio :=
    num_div (of_nat (length (filter (λ r, r = 5%Z) scores))) (of_nat total) in
  volatility ← calculateVolatility b;
  o ← getObject b;
  let entropy := b_entropy o in
  copy ← spread (b_ratings o);
  sorted ← sort copy by_date;
  recent ← slice_last sorted 10;
  let recentFiveRatio :=
    if decide (0 < length recent)%nat
    then num_div (of_nat (length (filter (λ r, score r = 5%Z) recent)))
                 (of_nat (length recent))
    else Num 0 in
  mret (Features fiveStarRatio volatility entropy recentFiveRatio).

Definition neuralNetworkPredict (b : loc) : M num :=
  _ ← calculateTrustScore b;
  f ← extractFeatures b;
  let hidden1 :=
    num_add (num_add (num_mul (fiveStarRatio f) (Num 0.8))
                     (num_mul (recentFiveRatio f) (Num 1.2)))
            (num_mul (num_sub (Num 1) (to_num (entropy f))) (Num 0.6)) in
  let hidden2 :=
    num_add (num_mul hidden1 (Num 0.7))
            (num_mul (num_sub (Num 0.5) (volatility f)) (Num 0.9)) in
  let output := num_div (Num 1) (num_add (Num 1) (Math_exp (num_neg hidden2))) in
  mret (Math_min (Math_max output (Num 0)) (Num 1)).

(** The two evaluations made for each card in [renderBusinesses]:
    [trust = calculateTrustScore(b); deepAI = neuralNetworkPredict(b)]. *)
Definition scoreCard (b : loc) : M (num * num) :=
  trust ← calculateTrustScore b;
  deepAI ← neuralNetworkPredict b;
  mret (trust, deepAI).

(** [x.toFixed(n)] needs a number to be called on; on [undefined] the
    property access throws. *)
Definition toFixed_receiver (x : option num) : M num := λ σ,
  match x with
  | Some v => Ok v σ
  | None => Throw TypeError
  end.

(** The values [showBreakdown] formats for the business [b] it has found:
    [b.rawAverage.toFixed(2)], [(b.entropy*100).toFixed(1)],
    [calculateVolatility(b).toFixed(2)] and [(deepAI*100).toFixed(1)]. *)
Definition showBreakdown (b : loc) : M (num * num * num * num) :=
  _ ← calculateTrustScore b;
  deepAI ← neuralNetworkPredict b;
  o ← getObject b;
  average ← toFixed_receiver (b_rawAverage o);
  let entropy := num_mul (to_num (b_entropy o)) (Num 100) in
  volatility ← calculateVolatility b;
  mret (average, entropy, volatility, num_mul deepAI (Num 100)).

(** ** Values computed by the script, as functions of the data read *)

(** [R] in [calculateTrustScore]. *)
Definition raw_average (scores : list Z) : num :=
  num_div (sum_scores scores) (of_nat (length scores)).

(** [score] in [calculateTrustScore], before rounding. *)
Definition final_trust (scores : list Z) (g : num) : num :=
  num_add
    (num_mul (num_div (bayes_smoothing (of_nat (length scores)) (raw_average scores) g)
                      (Num 5)) (Num 80))
    (num_mul (normalized_entropy scores) (Num 20)).

(** The business after the three property writes of [calculateTrustScore]. *)
Definition cached (o : business) (scores : list Z) (g : num) : business :=
  Business (b_name o) (b_category o) (b_ratings o)
           (Some (raw_average scores)) (Some (normalized_entropy scores))
           (Some (final_trust scores g)).

Definition with_object (σ : state) (b : loc) (o : business) : state :=
  State (businessesData σ) (globalAverage σ) (<[b := o]> (objects σ)) (arrays σ).

Definition with_array (σ : state) (a : loc) (rs : list rating) : state :=
  State (businessesData σ) (globalAverage σ) (objects σ) (<[a := rs]> (arrays σ)).

(** The result of [calculateVolatility]. *)
Definition std_dev (scores : list Z) : num :=
  let n := of_nat (length scores) in
  let avg := num_div (sum_scores scores) n in
  Math_sqrt
    (num_div (foldl (λ sum r, num_add sum (Math_pow (num_sub (of_Z r) avg) 2))
                    (Num 0) scores) n).

(** [fiveStarRatio] in [extractFeatures]. *)
Definition five_ratio (scores : list Z) : num :=
  num_div (of_nat (length (filter (λ r, r = 5%Z) scores))) (of_nat (length scores)).

(** [recent] in [extractFeatures]. *)
Definition recent_window (rs : list rating) : list rating :=
  let sorted := stable_sort by_date rs in
  drop (length sorted - 10) sorted.

(** [recentFiveRatio] in [extractFeatures]. *)
Definition recent_ratio (rs : list rating) : num :=
  let recent := recent_window rs in
  if decide (0 < length recent)%nat
  then num_div (of_nat (length (filter (λ r, score r = 5%Z) recent)))
               (of_nat (length recent))
  else Num 0.

Definition features_of (rs : list rating) (e : option num) : features :=
  Features (five_ratio (map score rs)) (std_dev (map score rs)) e (recent_ratio rs).

(** The value returned by [neuralNetworkPredict] on the features [f]. *)
Definition network (f : features) : num :=
  let hidden1 :=
    num_add (num_add (num_mul (fiveStarRatio f) (Num 0.8))
                     (num_mul (recentFiveRatio f) (Num 1.2)))
            (num_mul (num_sub (Num 1) (to_num (entropy f))) (Num 0.6)) in
  let hidden2 :=
    num_add (num_mul hidden1 (Num 0.7))
            (num_mul (num_sub (Num 0.5) (volatility f)) (Num 0.9)) in
  let output := num_div (Num 1) (num_add (Num 1) (Math_exp (num_neg hidden2))) in
  Math_min (Math_max output (Num 0)) (Num 1).

(** How many ratings carry the score [k]. *)
Definition count_score (k : Z) (scores : list Z) : nat :=
  length (filter (λ r, r = k) scores).

(** Scores as the data model has them. *)
Definition valid_scores (scores : list Z) : Prop :=
  Forall (λ r, (1 ≤ r ≤ 5)%Z) scores.

(** [counts] when the five buckets hold [a1], ..., [a5] ratings. *)
Definition histogram (a1 a2 a3 a4 a5 : nat) : list (option num) :=
  [Some (of_nat a1); Some (of_nat a2); Some (of_nat a3); Some (of_nat a4);
   Some (of_nat a5)].

(** The term [p*Math.log(p)] of a bucket holding [c] of [n] ratings; an
    empty bucket is skipped. *)
Definition plogp (c n : nat) : R :=
  if decide (c = 0%nat) then 0%R else (INR c / INR n * ln (INR c / INR n))%R.

(** [rss] lists, business by business, the ratings of the dataset [bs]. *)
Definition dataset (σ : state) (bs : list loc) (rss : list (list rating)) : Prop :=
  Forall2 (λ b rs, ∃ o, objects σ !! b = Some o ∧ arrays σ !! b_ratings o = Some rs)
          bs rss.

(** The scores of a whole dataset, in the order [computeGlobalAverage]
    collects them. *)
Definition all_scores (rss : list (list rating)) : list Z :=
  concat (map (map score) rss).

(** The output of the network on finite features, as a real number. *)
Definition network_R (fr vol e rr : R) : R :=
  let hidden1 := (fr * 0.8 + rr * 1.2 + (1 - e) * 0.6)%R in
  let hidden2 := (hidden1 * 0.7 + (0.5 - vol) * 0.9)%R in
  let output := (1 / (1 + exp (- hidden2)))%R in
  Rmin (Rmax output 0) 1.

(** ** A sample dataset *)

(** One business with five five-star ratings. *)
Definition sample_ratings : list rating :=
  [Rating 5 100; Rating 5 200; Rating 5 300; Rating 5 400; Rating 5 500].

Definition sample_business : business :=
  Business "Cafe" "food" 2%positive None None None.

Definition sample_state (g : num) : state :=
  State [1%positive] g {[1%positive := sample_business]}
        {[2%positive := sample_ratings]}.

(** A business loaded without ratings, before any evaluation;
    [globalAverage] still has its initial value. *)
Definition empty_business : business :=
  Business "Kiosk" "retail" 2%positive None None None.

Definition empty_state : state :=
  State [1%positive] (Num 0) {[1%positive := empty_business]} {[2%positive := []]}.

(** One business rated once with each score. *)
Definition mixed_ratings : list rating :=
  [Rating 1 100; Rating 2 200; Rating 3 300; Rating 4 400; Rating 5 500].

Definition mixed_state (g : num) : state :=
  State [1%positive] g {[1%positive := sample_business]}
        {[2%positive := mixed_ratings]}.

(** The value [calculateTrustScore] leaves in [b.entropy]. *)
Definition entropy_after (b : loc) (σ : state) : option num :=
  match calculateTrustScore b σ with
  | Ok _ σ' => o ← objects σ' !! b; b_entropy o
  | Throw _ => None
  end.

(** ** The recent window, in the words of the specification *)

Definition date_le (a b : rating) : Prop := (date a ≤ date b)%Z.

(** [s] is [l] sorted ascending by date, ratings of equal date keeping
    their original relative order. *)
Definition stably_sorted_by_date (l s : list rating) : Prop :=
  s ≡ₚ l ∧
  StronglySorted date_le s ∧
  ∀ d, filter (λ r, date r = d) s = filter (λ r, date r = d) l.

(** The last 10 ratings, or all of them if there are fewer than 10. *)
Definition last_ten (s : list rating) : list rating :=
  if decide (length s < 10)%nat then s else drop (length s - 10) s.

Definition five_stars (w : list rating) : nat :=
  length (filter (λ r, score r = 5%Z) w).

(** The five-star ratio within the window of the sorted ratings [s];
    0 for a business without ratings. *)
Definition spec_recentFiveRatio (s : list rating) : num :=
  match s with
  | [] => Num 0
  | _ => Num (INR (five_stars (last_ten s)) / INR (length (last_ten s)))
  end.

(** Twelve ratings in chronological order; only the first two have five
    stars. *)
Definition twelve_ratings : list rating :=
  [Rating 5 10; Rating 5 20; Rating 1 30; Rating 2 40; Rating 3 50; Rating 4 60;
   Rating 1 70; Rating 2 80; Rating 3 90; Rating 4 100; Rating 1 110; Rating 2 120].

Definition twelve_state : state :=
  State [1%positive] (Num 3) {[1%positive := sample_business]}
        {[2%positive := twelve_ratings]}.

(** ** The fraud-confidence formula, in the words of the specification *)

Definition clamp (x lo hi : R) : R :=
  if Rlt_dec x lo then lo else if Rlt_dec hi x then hi else x.

Definition sigmoid (x : R) : R := (1 / (1 + exp (- x)))%R.

Definition spec_fraudConfidence (fiveStarRatio recentFiveRatio entropy volatility : R) : R :=
  let hidden1 := (fiveStarRatio * 0.8 + recentFiveRatio * 1.2 + (1 - entropy) * 0.6)%R in
  let hidden2 := (hidden1 * 0.7 + (0.5 - volatility) * 0.9)%R in
  let output := sigmoid hidden2 in
  clamp output 0 1.

(** ** What the scoring operations return and leave behind *)

(** The value returned by [calculateTrustScore]. *)
Definition trust_value (rs : list rating) (g : num) : num :=
  if decide (rs = []) then Num 0
  else Math_round (final_trust (map score rs) g).

(** The business after [calculateTrustScore]. *)
Definition object_after (o : business) (rs : list rating) (g : num) : business :=
  if decide (rs = []) then o else cached o (map score rs) g.

(** [o'] has the name, the category and the ratings array of [o]. *)
Definition same_identity (o o' : business) : Prop :=
  b_name o' = b_name o ∧ b_category o' = b_category o ∧ b_ratings o' = b_ratings o.

(** From [σ] to [σ'] the globals, every business other than [b], the
    identity of [b] and every array of [σ] are unchanged. *)
Definition preserves_raw_data (b : loc) (σ σ' : state) : Prop :=
  businessesData σ' = businessesData σ ∧
  globalAverage σ' = globalAverage σ ∧
  (∀ b', b' ≠ b → objects σ' !! b' = objects σ !! b') ∧
  (∀ o, objects σ !! b = Some o →
        ∃ o', objects σ' !! b = Some o' ∧ same_identity o o') ∧
  (∀ a rs, arrays σ !! a = Some rs → arrays σ' !! a = Some rs).

(** [b.ratings], dereferenced. *)
Definition ratings_of (b : loc) (σ : state) : option (list rating) :=
  match objects σ !! b with
  | Some o => arrays σ !! b_ratings o
  | None => None
  end.

(** Three ratings stored out of chronological order. *)
Definition shuffled_ratings : list rating :=
  [Rating 5 300; Rating 1 100; Rating 4 200].

Definition shuffled_state : state :=
  State [1%positive] (Num 3) {[1%positive := sample_business]}
        {[2%positive := shuffled_ratings]}.

(** ** The rendering engine and the modal *)

(** [a >= b]; false as soon as one side is [NaN]. *)
Definition num_ge (a b : num) : bool :=
  match a, b with
  | NaN, _ | _, NaN => false
  | PosInf, _ | _, NegInf => true
  | NegInf, _ | _, PosInf => false
  | Num x, Num y => if Rle_dec y x then true else false
  end.

Definition getScoreColor (score : num) : string :=
  if num_ge score (Num 80) then "#10b981"
  else if num_ge score (Num 50) then "#f59e0b"
  else "#ef4444".

Definition set_businessesData (bs : list loc) : M unit := λ σ,
  Ok tt (State bs (globalAverage σ) (objects σ) (arrays σ)).

(** What a card shows: [b.name], [b.category], [trust] (also the width of
    the bar), the colour of the bar, the number [deepAI*100] handed to
    [toFixed(1)], and whether the high-risk line is present
    ([deepAI>0.75]). *)
Record card := Card {
  card_name : string;
  card_category : string;
  card_trust : num;
  card_color : string;
  card_percent : num;
  card_flagged : bool
}.

(** [businessesData.filter(b=>b.category===filter)] *)
Fixpoint filter_category (filter : string) (bs : list loc) : M (list loc) :=
  match bs with
  | [] => mret []
  | b :: bs' =>
      o ← getObject b;
      rest ← filter_category filter bs';
      mret (if decide (b_category o = filter) then b :: rest else rest)
  end.

(** The comparison function of [renderBusinesses]. *)
Definition by_trust (sort : string) (a b : loc) : M num :=
  A ← calculateTrustScore a;
  B ← calculateTrustScore b;
  mret (if decide (sort = "high") then num_sub B A else num_sub A B).

(** [Array.prototype.sort] with a comparison function that has effects:
    the stable insertion sort of [stable_sort], calling [cmp] where that
    one compares.  [x] goes behind [y] when [cmp x y > 0]; a [NaN] result
    counts as 0.  Which pairs an engine compares is its own choice; here
    every element of an array of two or more is compared at least once, as
    with any engine. *)
Fixpoint insert_sortedM (cmp : loc → loc → M num) (x : loc) (l : list loc) : M (list loc) :=
  match l with
  | [] => mret [x]
  | y :: l' =>
      c ← cmp x y;
      if num_gt c (Num 0)
      then rest ← insert_sortedM cmp x l'; mret (y :: rest)
      else mret (x :: y :: l')
  end.

Fixpoint sortM (cmp : loc → loc → M num) (l : list loc) : M (list loc) :=
  match l with
  | [] => mret []
  | x :: l' => sorted ← sortM cmp l'; insert_sortedM cmp x sorted
  end.

(** The body of [filtered.forEach(b=>{...})]. *)
Definition render_card (b : loc) : M card :=
  trust ← calculateTrustScore b;
  deepAI ← neuralNetworkPredict b;
  o ← getObject b;
  mret (Card (b_name o) (b_category o) trust (getScoreColor trust)
             (num_mul deepAI (Num 100)) (num_gt deepAI (Num 0.75))).

Fixpoint render_cards (bs : list loc) : M (list card) :=
  match bs with
  | [] => mret []
  | b :: bs' => c ← render_card b; rest ← render_cards bs'; mret (c :: rest)
  end.

(** [renderBusinesses], with the values of the two selects as arguments
    and the cards appended to the emptied container as result.  With the
    filter ["all"], [filtered] is the array [businessesData] itself, so
    sorting it in place reorders [businessesData]; otherwise [filtered] is
    the new array made by [filter]. *)
Definition renderBusinesses (filter sort : string) : M (list card) :=
  all ← get_businessesData;
  filtered ← (if decide (filter = "all") then mret all
              else filter_category filter all);
  sorted ← sortM (by_trust sort) filtered;
  _ ← (if decide (filter = "all") then set_businessesData sorted else mret tt);
  render_cards sorted.

(** The callback of [fetch]: [businessesData = data; computeGlobalAverage();
    renderBusinesses();]. *)
Definition onData (data : list loc) (filter sort : string) : M (list card) :=
  _ ← set_businessesData data;
  _ ← computeGlobalAverage;
  renderBusinesses filter sort.

(** [businessesData.find(x=>x.name===name)]; [None] is [undefined]. *)
Fixpoint find_by_name (name : string) (bs : list loc) : M (option loc) :=
  match bs with
  | [] => mret None
  | b :: bs' =>
      o ← getObject b;
      if decide (b_name o = name) then mret (Some b) else find_by_name name bs'
  end.

(** [showBreakdown(name)]: the business is looked up by name; on
    [undefined] the first property access, [b.ratings], throws. *)
Definition showBreakdownByName (name : string) : M (num * num * num * num) :=
  bs ← get_businessesData;
  found ← find_by_name name bs;
  match found with
  | Some b => showBreakdown b
  | None => λ _, Throw TypeError
  end.

(** ** Rendering, as functions of the data read *)

(** A business whose record and ratings array are in the store. *)
Definition loaded (σ : state) (b : loc) : Prop := is_Some (ratings_of b σ).

(** The trust score [calculateTrustScore] returns for [b]. *)
Definition trust_in (σ : state) (b : loc) : num :=
  match ratings_of b σ with
  | Some rs => trust_value rs (globalAverage σ)
  | None => NaN
  end.

(** The fraud confidence of a business with the ratings [rs]. *)
Definition fraud_value (rs : list rating) : num :=
  network (features_of rs (if decide (rs = []) then None
                           else Some (normalized_entropy (map score rs)))).

Definition fraud_in (σ : state) (b : loc) : num :=
  match ratings_of b σ with
  | Some rs => fraud_value rs
  | None => NaN
  end.

Definition card_in (σ : state) (b : loc) : option card :=
  match objects σ !! b with
  | Some o =>
      Some (Card (b_name o) (b_category o) (trust_in σ b)
                 (getScoreColor (trust_in σ b))
                 (num_mul (fraud_in σ b) (Num 100))
                 (num_gt (fraud_in σ b) (Num 0.75)))
  | None => None
  end.

(** [x] goes behind [y] in [renderBusinesses]' order on the keys [k]. *)
Definition behind (sort : string) (k : loc → num) (x y : loc) : bool :=
  num_gt (if decide (sort = "high") then num_sub (k y) (k x)
          else num_sub (k x) (k y)) (Num 0).

Fixpoint insert_by (after : loc → loc → bool) (x : loc) (l : list loc) : list loc :=
  match l with
  | [] => [x]
  | y :: l' => if after x y then y :: insert_by after x l' else x :: y :: l'
  end.

Definition sort_by (after : loc → loc → bool) (l : list loc) : list loc :=
  foldr (insert_by after) [] l.

(** The businesses of a category, in the order of [bs]. *)
Definition in_category (σ : state) (category : string) (bs : list loc) : list loc :=
  filter (λ b, b_category <$> objects σ !! b = Some category) bs.

(** From [σ] to [σ'] the global average, the identity of every business
    and every array of [σ] are unchanged. *)
Definition same_raw_data (σ σ' : state) : Prop :=
  globalAverage σ' = globalAverage σ ∧
  (∀ b o, objects σ !! b = Some o →
          ∃ o', objects σ' !! b = Some o' ∧ same_identity o o') ∧
  (∀ a rs, arrays σ !! a = Some rs → arrays σ' !! a = Some rs).

(** A cell of [counts]: a hole, [NaN], or a count. *)
Definition count_cell (c : option num) : Prop :=
  c = None ∨ c = Some NaN ∨ ∃ k : nat, c = Some (of_nat k).

(** The array [renderBusinesses] sorts. *)
Definition shown (σ : state) (filter sort : string) : list loc :=
  sort_by (behind sort (trust_in σ))
          (if decide (filter = "all") then businessesData σ
           else in_category σ filter (businessesData σ)).

(** The trust score of [b] as an integer, and the key by which
    [renderBusinesses] puts the greater first: the score itself for the
    order ["high"], its opposite otherwise. *)
Definition trust_key (σ : state) (b : loc) : Z :=
  match trust_in σ b with
  | Num r => Int_part r
  | _ => 0%Z
  end.

Definition order_key (sort : string) (σ : state) (b : loc) : Z :=
  if decide (sort = "high") then trust_key σ b else (- trust_key σ b)%Z.

(** The cards are in the order asked for: scores falling for ["high"],
    rising otherwise. *)
Definition in_trust_order (sort : string) (c1 c2 : card) : Prop :=
  if decide (sort = "high")
  then num_ge (card_trust c1) (card_trust c2) = true
  else num_ge (card_trust c2) (card_trust c1) = true.

(** Sorting by an integer key [w], the greater key first: [x] goes behind
    [y] when its key is smaller. *)
Definition key_behind (w : loc → Z) (x y : loc) : bool := bool_decide (w x < w y)%Z.

Definition key_sorted (w : loc → Z) : list loc → Prop :=
  StronglySorted (λ a b, (w b ≤ w a)%Z).



(** The ratings arrays of the businesses [bs], in their order. *)
Definition ratings_list (σ : state) (bs : list loc) : list (list rating) :=
  map (λ b, default [] (ratings_of b σ)) bs.

(** A business with at least one rating and all scores in 1..5. *)
Definition rated (σ : state) (b : loc) : Prop :=
  ∃ rs, ratings_of b σ = Some rs ∧ rs ≠ [] ∧ valid_scores (map score rs).

(** A card of a rated business: an integer trust score from 16 to 100
    and a confidence strictly between 0 and 100 percent. *)
Definition plausible_card (c : card) : Prop :=
  ∃ (z : Z) (p : R),
    card_trust c = of_Z z ∧ (16 ≤ z ≤ 100)%Z ∧
    card_color c = getScoreColor (of_Z z) ∧
    card_percent c = Num p ∧ (0 < p < 100)%R.

(** Two businesses: the one with five five-star ratings and the one rated
    once with each score. *)
Definition mixed_state_two : state :=
  State [1%positive; 3%positive] (Num 3)
        {[1%positive := sample_business;
          3%positive := Business "Diner" "food" 4%positive None None None]}
        {[2%positive := sample_ratings; 4%positive := mixed_ratings]}.

(** * Properties *)

(** ** Running the monad *)

Lemma bind_Ok {A B} (c : M A) (k : A → M B) σ a σ' :
  c σ = Ok a σ' → (c ≫= k) σ = k a σ'.
Proof. intros H. unfold mbind, M_bind. by rewrite H. Qed.

Lemma bind_Throw {A B} (c : M A) (k : A → M B) σ e :
  c σ = Throw e → (c ≫= k) σ = Throw e.
Proof. intros H. unfold mbind, M_bind. by rewrite H. Qed.

Lemma getObject_Ok σ b o : objects σ !! b = Some o → getObject b σ = Ok o σ.
Proof. intros H. unfold getObject. by rewrite H. Qed.

Lemma getArray_Ok σ a rs : arrays σ !! a = Some rs → getArray a σ = Ok rs σ.
Proof. intros H. unfold getArray. by rewrite H. Qed.

Lemma with_object_id σ b o : objects σ !! b = Some o → with_object σ b o = σ.
Proof.
  intros H. destruct σ as [bd g os ars]. unfold with_object. simpl in *.
  by rewrite insert_id.
Qed.

Lemma with_object_twice σ b o o' :
  with_object (with_object σ b o) b o' = with_object σ b o'.
Proof. unfold with_object. simpl. by rewrite insert_insert_eq. Qed.

Lemma lookup_with_object σ b o : objects (with_object σ b o) !! b = Some o.
Proof. simpl. apply lookup_insert_eq. Qed.

Lemma set_rawAverage_Ok σ b o x :
  objects σ !! b = Some o →
  set_rawAverage b x σ =
    Ok tt (with_object σ b (Business (b_name o) (b_category o) (b_ratings o)
                                     (Some x) (b_entropy o) (b_finalTrust o))).
Proof.
  intros H. unfold set_rawAverage.
  by rewrite (bind_Ok _ _ _ _ _ (getObject_Ok _ _ _ H)).
Qed.

Lemma set_entropy_Ok σ b o x :
  objects σ !! b = Some o →
  set_entropy b x σ =
    Ok tt (with_object σ b (Business (b_name o) (b_category o) (b_ratings o)
                                     (b_rawAverage o) (Some x) (b_finalTrust o))).
Proof.
  intros H. unfold set_entropy.
  by rewrite (bind_Ok _ _ _ _ _ (getObject_Ok _ _ _ H)).
Qed.

Lemma set_finalTrust_Ok σ b o x :
  objects σ !! b = Some o →
  set_finalTrust b x σ =
    Ok tt (with_object σ b (Business (b_name o) (b_category o) (b_ratings o)
                                     (b_rawAverage o) (b_entropy o) (Some x))).
Proof.
  intros H. unfold set_finalTrust.
  by rewrite (bind_Ok _ _ _ _ _ (getObject_Ok _ _ _ H)).
Qed.

Lemma get_globalAverage_Ok σ : get_globalAverage σ = Ok (globalAverage σ) σ.
Proof. reflexivity. Qed.

Lemma get_businessesData_Ok σ : get_businessesData σ = Ok (businessesData σ) σ.
Proof. reflexivity. Qed.

Create HintDb run.
#[local] Hint Resolve getObject_Ok getArray_Ok set_rawAverage_Ok set_entropy_Ok
  set_finalTrust_Ok lookup_with_object get_globalAverage_Ok
  get_businessesData_Ok : run.

(** Steps through a bind whose first computation is known to return. *)
Ltac mstep := erewrite bind_Ok by eauto with run.

Lemma calculateTrustScore_empty σ b o :
  objects σ !! b = Some o → arrays σ !! b_ratings o = Some [] →
  calculateTrustScore b σ = Ok (Num 0) σ.
Proof.
  intros Ho Ha. unfold calculateTrustScore. do 2 mstep. reflexivity.
Qed.

Lemma calculateTrustScore_run σ b o rs :
  objects σ !! b = Some o → arrays σ !! b_ratings o = Some rs → rs ≠ [] →
  calculateTrustScore b σ =
    Ok (Math_round (final_trust (map score rs) (globalAverage σ)))
       (with_object σ b (cached o (map score rs) (globalAverage σ))).
Proof.
  intros Ho Ha Hne. unfold calculateTrustScore. do 2 mstep.
  destruct (decide (length (map score rs) = 0%nat)) as [E|_].
  { rewrite length_map in E. by destruct rs. }
  do 4 mstep. rewrite !with_object_twice. reflexivity.
Qed.

Lemma calculateVolatility_run σ b o rs :
  objects σ !! b = Some o → arrays σ !! b_ratings o = Some rs →
  calculateVolatility b σ = Ok (std_dev (map score rs)) σ.
Proof.
  intros Ho Ha. unfold calculateVolatility. do 2 mstep. reflexivity.
Qed.

Lemma with_array_twice σ a rs rs' :
  with_array (with_array σ a rs) a rs' = with_array σ a rs'.
Proof. unfold with_array. simpl. by rewrite insert_insert_eq. Qed.

Lemma lookup_with_array σ a rs : arrays (with_array σ a rs) !! a = Some rs.
Proof. simpl. apply lookup_insert_eq. Qed.

Lemma spread_Ok σ a rs :
  arrays σ !! a = Some rs →
  spread a σ = Ok (fresh (dom (arrays σ))) (with_array σ (fresh (dom (arrays σ))) rs).
Proof. intros H. unfold spread. mstep. reflexivity. Qed.

Lemma sort_Ok σ a rs cmp :
  arrays σ !! a = Some rs →
  sort a cmp σ = Ok a (with_array σ a (stable_sort cmp rs)).
Proof. intros H. unfold sort. mstep. reflexivity. Qed.

Lemma slice_last_Ok σ a rs n :
  arrays σ !! a = Some rs →
  slice_last a n σ = Ok (drop (length rs - n) rs) σ.
Proof. intros H. unfold slice_last. mstep. reflexivity. Qed.

#[local] Hint Resolve calculateVolatility_run spread_Ok sort_Ok slice_last_Ok
  lookup_with_array : run.

Lemma extractFeatures_run σ b o rs :
  objects σ !! b = Some o → arrays σ !! b_ratings o = Some rs →
  extractFeatures b σ =
    Ok (features_of rs (b_entropy o))
       (with_array σ (fresh (dom (arrays σ))) (stable_sort by_date rs)).
Proof.
  intros Ho Ha. unfold extractFeatures. do 7 mstep.
  rewrite with_array_twice. reflexivity.
Qed.

(** The state and the cached entropy after [calculateTrustScore]. *)
Lemma calculateTrustScore_total σ b o rs :
  objects σ !! b = Some o → arrays σ !! b_ratings o = Some rs →
  ∃ t o',
    calculateTrustScore b σ = Ok t (with_object σ b o') ∧
    b_name o' = b_name o ∧ b_category o' = b_category o ∧
    b_ratings o' = b_ratings o ∧
    (rs = [] → o' = o ∧ t = Num 0) ∧
    (rs ≠ [] → o' = cached o (map score rs) (globalAverage σ) ∧
               t = Math_round (final_trust (map score rs) (globalAverage σ))).
Proof.
  intros Ho Ha. destruct (decide (rs = [])) as [->|Hne].
  - exists (Num 0), o. rewrite with_object_id by done.
    rewrite (calculateTrustScore_empty _ _ _ Ho Ha).
    repeat split; done.
  - eexists _, _. rewrite (calculateTrustScore_run _ _ _ _ Ho Ha Hne).
    repeat split; done.
Qed.

Lemma neuralNetworkPredict_run σ b o rs :
  objects σ !! b = Some o → arrays σ !! b_ratings o = Some rs →
  ∃ o',
    neuralNetworkPredict b σ =
      Ok (network (features_of rs (b_entropy o')))
         (with_array (with_object σ b o') (fresh (dom (arrays σ)))
                     (stable_sort by_date rs)) ∧
    b_name o' = b_name o ∧ b_category o' = b_category o ∧
    b_ratings o' = b_ratings o ∧
    (rs = [] → o' = o) ∧
    (rs ≠ [] → o' = cached o (map score rs) (globalAverage σ)).
Proof.
  intros Ho Ha.
  destruct (calculateTrustScore_total _ _ _ _ Ho Ha)
    as (t & o' & Hrun & Hn & Hc & Hr & He & Hne).
  exists o'. split; [|repeat split; try done; intros H; by (apply He || apply Hne)].
  unfold neuralNetworkPredict. mstep.
  erewrite bind_Ok.
  2:{ apply extractFeatures_run with (o := o'); [apply lookup_with_object|].
      rewrite Hr. exact Ha. }
  reflexivity.
Qed.

(** ** Arithmetic of [num] on finite values *)

Section Finite.
Local Open Scope R_scope.

Lemma Rsign_Pos r : 0 < r → Rsign r = Pos.
Proof. intros H. unfold Rsign. destruct (Rlt_dec 0 r); [done | lra]. Qed.

Lemma Rsign_Neg r : r < 0 → Rsign r = Neg.
Proof.
  intros H. unfold Rsign.
  destruct (Rlt_dec 0 r); [lra|]. destruct (Rlt_dec r 0); [done | lra].
Qed.

Lemma Rsign_Zero : Rsign 0 = Zero.
Proof.
  unfold Rsign. destruct (Rlt_dec 0 0); [lra|]. destruct (Rlt_dec 0 0); [lra | done].
Qed.

Lemma Rsign_Zero_inv r : Rsign r = Zero → r = 0.
Proof.
  unfold Rsign. destruct (Rlt_dec 0 r); [done|].
  destruct (Rlt_dec r 0); [done | lra].
Qed.

Lemma num_div_Num x y : y ≠ 0 → num_div (Num x) (Num y) = Num (x / y).
Proof.
  intros H. simpl. destruct (Rsign y) eqn:E; try done.
  by apply Rsign_Zero_inv in E.
Qed.

Lemma num_div_0_0 : num_div (Num 0) (Num 0) = NaN.
Proof. simpl. by rewrite Rsign_Zero. Qed.

Lemma Math_log_Num r : 0 < r → Math_log (Num r) = Num (ln r).
Proof. intros H. simpl. by rewrite Rsign_Pos. Qed.

Lemma Math_sqrt_Num r : 0 <= r → Math_sqrt (Num r) = Num (sqrt r).
Proof.
  intros H. simpl. destruct (Rsign r) eqn:E; try done.
  unfold Rsign in E. destruct (Rlt_dec 0 r); [done|].
  destruct (Rlt_dec r 0); [lra | done].
Qed.

Lemma num_gt_true x y : y < x → num_gt (Num x) (Num y) = true.
Proof. intros H. simpl. destruct (Rlt_dec y x); [done | lra]. Qed.

Lemma num_gt_false x y : x <= y → num_gt (Num x) (Num y) = false.
Proof. intros H. simpl. destruct (Rlt_dec y x); [lra | done]. Qed.

Lemma ln5_pos : 0 < ln 5.
Proof. rewrite <- ln_1. apply ln_increasing; lra. Qed.

Lemma Math_log_5 : Math_log (Num 5) = Num (ln 5).
Proof. apply Math_log_Num. lra. Qed.

Lemma Rdiv_le_upper a b c : 0 < b → a <= c * b → a / b <= c.
Proof.
  intros Hb H. replace c with (c * b / b) by (field; lra).
  apply Rmult_le_compat_r; [|done].
  apply Rlt_le, Rinv_0_lt_compat, Hb.
Qed.

Lemma Rdiv_le_lower a b c : 0 < b → c * b <= a → c <= a / b.
Proof.
  intros Hb H. replace c with (c * b / b) by (field; lra).
  apply Rmult_le_compat_r; [|done].
  apply Rlt_le, Rinv_0_lt_compat, Hb.
Qed.

Lemma INR_pos_of_ne n : n ≠ 0%nat → 0 < INR n.
Proof. intros H. apply lt_0_INR. lia. Qed.

(** [Math.round] of a value between two integers stays between them. *)
Lemma Int_part_bounds r (lo hi : Z) :
  IZR lo <= r → r <= IZR hi → (lo <= Int_part (r + / 2) <= hi)%Z.
Proof.
  intros Hlo Hhi.
  destruct (base_Int_part (r + / 2)) as [H1 H2].
  split.
  - apply Z.lt_succ_r. apply lt_IZR. rewrite succ_IZR. lra.
  - apply Z.lt_succ_r. apply lt_IZR. rewrite succ_IZR. lra.
Qed.

Lemma Math_round_integer (z : Z) : Math_round (Num (IZR z)) = Num (IZR z).
Proof.
  simpl. do 2 f_equal.
  destruct (Int_part_bounds (IZR z) z z); [lra | lra | lia].
Qed.

Lemma sum_scores_from x l :
  foldl (λ a b, num_add a (of_Z b)) (Num x) l = Num (x + IZR (foldr Z.add 0%Z l)).
Proof.
  revert x. induction l as [|z l IH]; intros x; simpl.
  - f_equal. lra.
  - rewrite IH. f_equal. rewrite plus_IZR. lra.
Qed.

Lemma sum_scores_Num l : sum_scores l = Num (IZR (foldr Z.add 0%Z l)).
Proof. unfold sum_scores. rewrite sum_scores_from. f_equal. lra. Qed.

End Finite.

(** ** The histogram *)

Lemma count_score_cons k r l :
  count_score k (r :: l) = ((if decide (r = k) then 1 else 0) + count_score k l)%nat.
Proof. unfold count_score. rewrite filter_cons. by case_decide. Qed.

Lemma count_score_total l :
  valid_scores l →
  (count_score 1 l + count_score 2 l + count_score 3 l + count_score 4 l
   + count_score 5 l)%nat = length l.
Proof.
  induction 1 as [|r l Hr _ IH]; [done|].
  rewrite !count_score_cons. simpl length.
  repeat case_decide; lia.
Qed.

Lemma counts_incr_histogram a1 a2 a3 a4 a5 r :
  (1 ≤ r ≤ 5)%Z →
  counts_incr (histogram a1 a2 a3 a4 a5) (r - 1) =
  histogram (a1 + if decide (r = 1%Z) then 1 else 0)
            (a2 + if decide (r = 2%Z) then 1 else 0)
            (a3 + if decide (r = 3%Z) then 1 else 0)
            (a4 + if decide (r = 4%Z) then 1 else 0)
            (a5 + if decide (r = 5%Z) then 1 else 0).
Proof.
  intros Hr.
  assert (r = 1 ∨ r = 2 ∨ r = 3 ∨ r = 4 ∨ r = 5)%Z as Hcase by lia.
  destruct Hcase as [->|[->|[->|[->| ->]]]];
    unfold counts_incr; simpl; unfold of_nat; rewrite <- S_INR;
    unfold histogram, of_nat; rewrite !Nat.add_0_r, Nat.add_1_r; reflexivity.
Qed.

Lemma counts_from a1 a2 a3 a4 a5 l :
  valid_scores l →
  foldl (λ counts r, counts_incr counts (r - 1)) (histogram a1 a2 a3 a4 a5) l =
  histogram (a1 + count_score 1 l) (a2 + count_score 2 l) (a3 + count_score 3 l)
            (a4 + count_score 4 l) (a5 + count_score 5 l).
Proof.
  intros Hl. revert a1 a2 a3 a4 a5.
  induction Hl as [|r l Hr _ IH]; intros a1 a2 a3 a4 a5.
  - simpl. unfold count_score. simpl. by rewrite !Nat.add_0_r.
  - simpl foldl. rewrite counts_incr_histogram by done. rewrite IH.
    rewrite !count_score_cons. by rewrite !Nat.add_assoc.
Qed.

Lemma counts_valid l :
  valid_scores l →
  foldl (λ counts r, counts_incr counts (r - 1)) (replicate 5 (Some (Num 0))) l =
  histogram (count_score 1 l) (count_score 2 l) (count_score 3 l)
            (count_score 4 l) (count_score 5 l).
Proof. intros H. apply (counts_from 0 0 0 0 0 l H). Qed.

(** ** Shannon entropy of the histogram *)

Section Entropy.
Local Open Scope R_scope.

Lemma entropy_step_Num n c x :
  n ≠ 0%nat →
  entropy_step (of_nat n) (Num x) (Some (of_nat c)) = Num (x - plogp c n).
Proof.
  intros Hn. pose proof (INR_pos_of_ne n Hn) as Hpos.
  unfold entropy_step, plogp, of_nat. case_decide as Hc.
  - subst c. simpl INR. rewrite num_gt_false by lra. f_equal. lra.
  - pose proof (INR_pos_of_ne c Hc) as Hcpos.
    rewrite num_gt_true by lra.
    rewrite num_div_Num by lra.
    rewrite Math_log_Num by (apply Rdiv_lt_0_compat; lra).
    reflexivity.
Qed.

Lemma normalized_entropy_valid l :
  valid_scores l → l ≠ [] →
  normalized_entropy l =
    Num ((0 - plogp (count_score 1 l) (length l) - plogp (count_score 2 l) (length l)
            - plogp (count_score 3 l) (length l) - plogp (count_score 4 l) (length l)
            - plogp (count_score 5 l) (length l)) / ln 5).
Proof.
  intros Hv Hne. unfold normalized_entropy.
  assert (length l ≠ 0%nat) as Hn by (by destruct l).
  rewrite counts_valid by done. unfold histogram. cbn [foldl].
  rewrite !entropy_step_Num by done.
  rewrite Math_log_5. apply num_div_Num. pose proof ln5_pos. lra.
Qed.

Lemma ln_le_minus_1 y : 0 < y → ln y <= y - 1.
Proof.
  intros Hy. pose proof (exp_ineq1_le (ln y)) as H.
  rewrite exp_ln in H by done. lra.
Qed.

(** A bucket's term is at most zero. *)
Lemma plogp_nonpos c n : (c ≤ n)%nat → plogp c n <= 0.
Proof.
  intros Hle. unfold plogp. case_decide as Hc; [lra|].
  pose proof (INR_pos_of_ne c Hc) as Hcpos.
  assert (0 < INR n) as Hnpos by (apply lt_0_INR; lia).
  assert (INR c <= INR n) as Hcn by (by apply le_INR).
  assert (0 < INR c / INR n) as Hp by (by apply Rdiv_lt_0_compat).
  assert (INR c / INR n <= 1) as Hp1.
  { apply Rdiv_le_upper; lra. }
  pose proof (ln_le_minus_1 _ Hp). nra.
Qed.

(** Gibbs' inequality, bucket by bucket, against the uniform distribution. *)
Lemma plogp_lower c n :
  n ≠ 0%nat → - plogp c n <= INR c / INR n * ln 5 + / 5 - INR c / INR n.
Proof.
  intros Hn. pose proof (INR_pos_of_ne n Hn) as Hnpos.
  unfold plogp. case_decide as Hc.
  - subst c. simpl INR. lra.
  - pose proof (INR_pos_of_ne c Hc) as Hcpos.
    set (p := INR c / INR n).
    assert (0 < p) as Hp by (by apply Rdiv_lt_0_compat).
    assert (0 < / (5 * p)) as Hy by (apply Rinv_0_lt_compat; lra).
    pose proof (ln_le_minus_1 _ Hy) as H.
    rewrite ln_Rinv in H by lra.
    rewrite ln_mult in H by lra.
    assert (p * / (5 * p) = / 5) as E by (field; lra).
    nra.
Qed.

(** The normalized entropy of valid ratings is a number between 0 and 1. *)
Lemma normalized_entropy_range l :
  valid_scores l → l ≠ [] →
  ∃ e, normalized_entropy l = Num e ∧ 0 <= e <= 1.
Proof.
  intros Hv Hne. rewrite normalized_entropy_valid by done.
  eexists; split; [reflexivity|].
  assert (length l ≠ 0%nat) as Hn by (by destruct l).
  pose proof (count_score_total l Hv) as Htot.
  set (n := length l) in *.
  set (c1 := count_score 1 l) in *. set (c2 := count_score 2 l) in *.
  set (c3 := count_score 3 l) in *. set (c4 := count_score 4 l) in *.
  set (c5 := count_score 5 l) in *.
  pose proof (INR_pos_of_ne n Hn) as Hnpos.
  assert (INR c1 / INR n + INR c2 / INR n + INR c3 / INR n + INR c4 / INR n
          + INR c5 / INR n = 1) as Hsum.
  { assert (INR c1 + INR c2 + INR c3 + INR c4 + INR c5 = INR n) as E
      by (by rewrite <- !plus_INR, Htot).
    replace (INR c1 / INR n + INR c2 / INR n + INR c3 / INR n + INR c4 / INR n
             + INR c5 / INR n)
      with ((INR c1 + INR c2 + INR c3 + INR c4 + INR c5) / INR n) by (field; lra).
    rewrite E. field. lra. }
  pose proof (plogp_nonpos c1 n ltac:(lia)). pose proof (plogp_nonpos c2 n ltac:(lia)).
  pose proof (plogp_nonpos c3 n ltac:(lia)). pose proof (plogp_nonpos c4 n ltac:(lia)).
  pose proof (plogp_nonpos c5 n ltac:(lia)).
  pose proof (plogp_lower c1 n Hn). pose proof (plogp_lower c2 n Hn).
  pose proof (plogp_lower c3 n Hn). pose proof (plogp_lower c4 n Hn).
  pose proof (plogp_lower c5 n Hn).
  pose proof ln5_pos as Hln5.
  split.
  - apply Rdiv_le_lower; lra.
  - apply Rdiv_le_upper; [lra|].
    assert (INR c1 / INR n * ln 5 + INR c2 / INR n * ln 5 + INR c3 / INR n * ln 5
            + INR c4 / INR n * ln 5 + INR c5 / INR n * ln 5 = ln 5) as Hprod.
    { rewrite <- !Rmult_plus_distr_r, Hsum. lra. }
    lra.
Qed.

End Entropy.

(** ** The global average *)

Lemma push_scores all rs :
  foldl (λ all r, all ++ [score r]) all rs = all ++ map score rs.
Proof.
  revert all. induction rs as [|r rs IH]; intros all; simpl.
  - by rewrite app_nil_r.
  - rewrite IH. by rewrite <- app_assoc.
Qed.

Lemma collect_scores_run σ bs rss all :
  dataset σ bs rss →
  collect_scores all bs σ = Ok (all ++ all_scores rss) σ.
Proof.
  intros H. revert all.
  induction H as [|b rs bs rss (o & Ho & Ha) _ IH]; intros all.
  - unfold all_scores. simpl. by rewrite app_nil_r.
  - cbn [collect_scores]. do 2 mstep. rewrite IH, push_scores.
    unfold all_scores. simpl. by rewrite app_assoc.
Qed.

Lemma computeGlobalAverage_run σ rss :
  dataset σ (businessesData σ) rss →
  computeGlobalAverage σ =
    Ok tt (State (businessesData σ) (raw_average (all_scores rss))
                 (objects σ) (arrays σ)).
Proof.
  intros H. unfold computeGlobalAverage. mstep.
  erewrite bind_Ok by (by apply collect_scores_run).
  reflexivity.
Qed.

(** ** Ranges for valid ratings *)

Section Ranges.
Local Open Scope R_scope.

Lemma sum_valid l :
  valid_scores l →
  INR (length l) <= IZR (foldr Z.add 0%Z l) <= 5 * INR (length l).
Proof.
  induction 1 as [|r l [Hr1 Hr2] _ IH].
  - simpl. lra.
  - cbn [foldr length]. rewrite S_INR, plus_IZR.
    apply IZR_le in Hr1, Hr2. lra.
Qed.

Lemma raw_average_range l :
  valid_scores l → l ≠ [] →
  ∃ a, raw_average l = Num a ∧ 1 <= a <= 5.
Proof.
  intros Hv Hne. unfold raw_average. rewrite sum_scores_Num.
  assert (length l ≠ 0%nat) as Hn by (by destruct l).
  pose proof (INR_pos_of_ne _ Hn) as Hpos.
  pose proof (sum_valid l Hv) as [Hlo Hhi].
  unfold of_nat. rewrite num_div_Num by lra.
  eexists; split; [reflexivity|]. split.
  - apply Rdiv_le_lower; lra.
  - apply Rdiv_le_upper; lra.
Qed.

Lemma all_scores_valid rss :
  Forall (λ rs, valid_scores (map score rs)) rss → valid_scores (all_scores rss).
Proof.
  unfold all_scores, valid_scores. induction 1 as [|rs rss H _ IH]; simpl.
  - constructor.
  - apply Forall_app. by split.
Qed.

Lemma bayes_smoothing_range n a g :
  1 <= a <= 5 → 1 <= g <= 5 →
  ∃ y, bayes_smoothing (of_nat n) (Num a) (Num g) = Num y ∧ 1 <= y <= 5.
Proof.
  intros Ha Hg. pose proof (pos_INR n) as Hn.
  unfold bayes_smoothing, of_nat, m. cbn [num_add].
  rewrite !num_div_Num by lra. cbn [num_mul num_add].
  eexists; split; [reflexivity|].
  assert (INR n / (INR n + 15) + 15 / (INR n + 15) = 1) as E by (field; lra).
  assert (0 <= INR n / (INR n + 15)) as H1 by (apply Rdiv_le_lower; lra).
  assert (0 <= 15 / (INR n + 15)) as H2 by (apply Rdiv_le_lower; lra).
  split; nra.
Qed.

(** The unrounded score of valid ratings against a valid global average. *)
Lemma final_trust_range l g :
  valid_scores l → l ≠ [] → 1 <= g <= 5 →
  ∃ s, final_trust l (Num g) = Num s ∧ 16 <= s <= 100.
Proof.
  intros Hv Hne Hg. unfold final_trust.
  destruct (raw_average_range l Hv Hne) as (a & -> & Ha).
  destruct (bayes_smoothing_range (length l) a g Ha Hg) as (y & -> & Hy).
  destruct (normalized_entropy_range l Hv Hne) as (e & -> & He).
  rewrite num_div_Num by lra. cbn [num_mul num_add].
  eexists; split; [reflexivity|]. lra.
Qed.

Lemma Math_round_range s (lo hi : Z) :
  IZR lo <= s <= IZR hi →
  ∃ z, Math_round (Num s) = Num (IZR z) ∧ (lo ≤ z ≤ hi)%Z.
Proof.
  intros [Hlo Hhi]. eexists; split; [reflexivity|].
  by apply Int_part_bounds.
Qed.

Lemma squares_from avg x l :
  0 <= x →
  ∃ y, foldl (λ sum r, num_add sum (Math_pow (num_sub (of_Z r) (Num avg)) 2))
             (Num x) l = Num y ∧ 0 <= y.
Proof.
  revert x. induction l as [|r l IH]; intros x Hx.
  - by exists x.
  - cbn [foldl]. unfold of_Z at 1. cbn [Math_pow num_sub num_neg num_add num_mul].
    apply IH. pose proof (Rle_0_sqr (IZR r + - avg)) as H. unfold Rsqr in H. lra.
Qed.

Lemma std_dev_Num l : l ≠ [] → ∃ s, std_dev l = Num s.
Proof.
  intros Hne. unfold std_dev. rewrite sum_scores_Num.
  assert (length l ≠ 0%nat) as Hn by (by destruct l).
  pose proof (INR_pos_of_ne _ Hn) as Hpos.
  unfold of_nat. rewrite num_div_Num by lra.
  destruct (squares_from (IZR (foldr Z.add 0%Z l) / INR (length l)) 0 l)
    as (y & -> & Hy); [lra|].
  rewrite num_div_Num by lra.
  rewrite Math_sqrt_Num by (apply Rdiv_le_lower; lra).
  by eexists.
Qed.

Lemma five_ratio_Num l : l ≠ [] → ∃ x, five_ratio l = Num x.
Proof.
  intros Hne. unfold five_ratio, of_nat.
  assert (length l ≠ 0%nat) as Hn by (by destruct l).
  pose proof (INR_pos_of_ne _ Hn) as Hpos.
  rewrite num_div_Num by lra. by eexists.
Qed.

Lemma recent_ratio_Num rs : ∃ x, recent_ratio rs = Num x.
Proof.
  unfold recent_ratio. cbv zeta. case_decide as H; [|by eexists].
  unfold of_nat. rewrite num_div_Num; [by eexists|].
  pose proof (lt_0_INR _ H). lra.
Qed.

Lemma network_Num fr vol e rr :
  network (Features (Num fr) (Num vol) (Some (Num e)) (Num rr)) =
  Num (network_R fr vol e rr).
Proof.
  unfold network, network_R.
  cbn [fiveStarRatio volatility entropy recentFiveRatio to_num
       num_mul num_add num_sub num_neg Math_exp].
  rewrite num_div_Num; [reflexivity|].
  match goal with |- context [exp ?x] => pose proof (exp_pos x) end. lra.
Qed.

Lemma network_R_range fr vol e rr : 0 <= network_R fr vol e rr <= 1.
Proof.
  unfold network_R. cbv zeta. split.
  - apply Rmin_glb; [apply Rmax_r | lra].
  - apply Rmin_r.
Qed.

End Ranges.

(** ** Trust score and fraud confidence stay in range *)

Lemma globalAverage_range σ0 σ rss :
  dataset σ0 (businessesData σ0) rss →
  Forall (λ rs, valid_scores (map score rs)) rss →
  all_scores rss ≠ [] →
  computeGlobalAverage σ0 = Ok tt σ →
  ∃ g, globalAverage σ = Num g ∧ (1 <= g <= 5)%R ∧
       objects σ = objects σ0 ∧ arrays σ = arrays σ0.
Proof.
  intros Hd Hv Hne Hrun.
  rewrite (computeGlobalAverage_run _ _ Hd) in Hrun.
  injection Hrun as <-. cbn [globalAverage objects arrays].
  destruct (raw_average_range _ (all_scores_valid _ Hv) Hne) as (g & -> & Hg).
  by exists g.
Qed.

(** C1. For a business with at least one rating, all scores integers in
    1..5, and a global average computed by [computeGlobalAverage] from a
    dataset of such ratings, [calculateTrustScore] returns an integer in
    [0, 100] and [neuralNetworkPredict] returns a number in [0, 1]. *)
Theorem trust_and_fraud_in_range σ0 σ rss b o rs :
  dataset σ0 (businessesData σ0) rss →
  Forall (λ rs, valid_scores (map score rs)) rss →
  all_scores rss ≠ [] →
  computeGlobalAverage σ0 = Ok tt σ →
  objects σ !! b = Some o →
  arrays σ !! b_ratings o = Some rs →
  rs ≠ [] →
  valid_scores (map score rs) →
  (∃ t σ1, calculateTrustScore b σ = Ok (of_Z t) σ1 ∧ (0 ≤ t ≤ 100)%Z) ∧
  (∃ f σ2, neuralNetworkPredict b σ = Ok (Num f) σ2 ∧ (0 <= f <= 1)%R).
Proof.
  intros Hd Hvs Hall Hg Ho Ha Hne Hv.
  destruct (globalAverage_range _ _ _ Hd Hvs Hall Hg) as (g & Eg & Hgr & _ & _).
  assert (map score rs ≠ []) as Hne' by (by destruct rs).
  split.
  - rewrite (calculateTrustScore_run _ _ _ _ Ho Ha Hne), Eg.
    destruct (final_trust_range _ g Hv Hne' Hgr) as (s & -> & Hs).
    destruct (Math_round_range s 16 100 Hs) as (z & -> & Hz).
    exists z. eexists. split; [reflexivity | lia].
  - destruct (neuralNetworkPredict_run _ _ _ _ Ho Ha) as (o' & -> & _ & _ & _ & _ & Ec).
    rewrite (Ec Hne). unfold features_of. cbn [b_entropy cached].
    destruct (five_ratio_Num _ Hne') as (fr & ->).
    destruct (std_dev_Num _ Hne') as (vol & ->).
    destruct (normalized_entropy_range _ Hv Hne') as (e & -> & _).
    destruct (recent_ratio_Num rs) as (rr & ->).
    rewrite network_Num. eexists _, _. split; [reflexivity|].
    apply network_R_range.
Qed.

Lemma trust_and_fraud_in_range_witness :
  (∃ t σ1, calculateTrustScore 1%positive
             (sample_state (raw_average (all_scores [sample_ratings])))
           = Ok (of_Z t) σ1 ∧ (0 ≤ t ≤ 100)%Z) ∧
  (∃ f σ2, neuralNetworkPredict 1%positive
             (sample_state (raw_average (all_scores [sample_ratings])))
           = Ok (Num f) σ2 ∧ (0 <= f <= 1)%R).
Proof.
  apply (trust_and_fraud_in_range (sample_state (Num 0)) _ [sample_ratings]
           1%positive sample_business sample_ratings).
  - repeat econstructor.
  - repeat constructor; simpl; lia.
  - discriminate.
  - reflexivity.
  - reflexivity.
  - reflexivity.
  - discriminate.
  - repeat constructor; simpl; lia.
Defined.

(** ** The worked example: five five-star ratings, global average 3 *)

Section Worked.
Local Open Scope R_scope.

Lemma raw_average_five_fives : raw_average [5; 5; 5; 5; 5]%Z = Num 5.
Proof.
  unfold raw_average, of_nat. rewrite sum_scores_Num.
  change (foldr Z.add 0%Z [5; 5; 5; 5; 5]%Z) with 25%Z.
  rewrite num_div_Num by (simpl; lra). f_equal. simpl. lra.
Qed.

Lemma bayes_five_fives :
  bayes_smoothing (of_nat 5) (Num 5) (Num 3) = Num (35 / 10).
Proof.
  unfold bayes_smoothing, of_nat, m. simpl INR. cbn [num_add].
  rewrite !num_div_Num by lra. cbn [num_mul num_add]. f_equal. lra.
Qed.

Lemma plogp_all n : n ≠ 0%nat → plogp n n = 0.
Proof.
  intros Hn. pose proof (INR_pos_of_ne n Hn).
  unfold plogp. case_decide; [done|].
  replace (INR n / INR n) with 1 by (field; lra). rewrite ln_1. lra.
Qed.

Lemma plogp_none n : plogp 0 n = 0.
Proof. reflexivity. Qed.

Lemma normalized_entropy_five_fives : normalized_entropy [5; 5; 5; 5; 5]%Z = Num 0.
Proof.
  rewrite normalized_entropy_valid; [|repeat constructor; lia|done].
  change (count_score 1 [5; 5; 5; 5; 5]%Z) with 0%nat.
  change (count_score 2 [5; 5; 5; 5; 5]%Z) with 0%nat.
  change (count_score 3 [5; 5; 5; 5; 5]%Z) with 0%nat.
  change (count_score 4 [5; 5; 5; 5; 5]%Z) with 0%nat.
  change (count_score 5 [5; 5; 5; 5; 5]%Z) with 5%nat.
  change (length [5; 5; 5; 5; 5]%Z) with 5%nat.
  rewrite !plogp_none, plogp_all by done.
  f_equal. pose proof ln5_pos. field. lra.
Qed.

Lemma final_trust_five_fives : final_trust [5; 5; 5; 5; 5]%Z (Num 3) = Num 56.
Proof.
  unfold final_trust.
  rewrite raw_average_five_fives, normalized_entropy_five_fives.
  change (length [5; 5; 5; 5; 5]%Z) with 5%nat.
  rewrite bayes_five_fives. rewrite num_div_Num by lra.
  cbn [num_mul num_add]. f_equal. lra.
Qed.

(** C2. On the business with ratings [5,5,5,5,5] and global average 3,
    [calculateTrustScore] computes the raw average 5, the smoothed value
    3.5 and the normalized entropy 0, caches 5, 0 and 56, and returns 56. *)
Theorem worked_example :
  raw_average (map score sample_ratings) = Num 5 ∧
  bayes_smoothing (of_nat (length sample_ratings))
                  (raw_average (map score sample_ratings)) (Num 3) = Num (35 / 10) ∧
  normalized_entropy (map score sample_ratings) = Num 0 ∧
  calculateTrustScore 1%positive (sample_state (Num 3)) =
    Ok (Num 56)
       (with_object (sample_state (Num 3)) 1%positive
          (Business "Cafe" "food" 2%positive
                    (Some (Num 5)) (Some (Num 0)) (Some (Num 56)))).
Proof.
  change (map score sample_ratings) with [5; 5; 5; 5; 5]%Z.
  change (length sample_ratings) with 5%nat.
  split; [apply raw_average_five_fives|].
  split; [rewrite raw_average_five_fives; apply bayes_five_fives|].
  split; [apply normalized_entropy_five_fives|].
  rewrite (calculateTrustScore_run _ _ sample_business sample_ratings);
    [|reflexivity|reflexivity|discriminate].
  change (map score sample_ratings) with [5; 5; 5; 5; 5]%Z.
  unfold cached. cbn [globalAverage sample_state].
  rewrite final_trust_five_fives, raw_average_five_fives,
    normalized_entropy_five_fives.
  rewrite (Math_round_integer 56). reflexivity.
Qed.

End Worked.

(** ** Collections without ratings *)

Lemma std_dev_nil : std_dev [] = NaN.
Proof.
  unfold std_dev, sum_scores, of_nat. cbn [length foldl INR].
  by rewrite num_div_0_0.
Qed.


Lemma five_ratio_nil : five_ratio [] = NaN.
Proof. unfold five_ratio, of_nat. cbn [length filter INR]. apply num_div_0_0. Qed.

Lemma network_NaN vol e rr : network (Features NaN vol e rr) = NaN.
Proof. reflexivity. Qed.







(** ** A business without ratings *)

Lemma extractFeatures_nil σ b o :
  objects σ !! b = Some o → arrays σ !! b_ratings o = Some [] →
  extractFeatures b σ =
    Ok (Features NaN NaN (b_entropy o) (Num 0))
       (with_array σ (fresh (dom (arrays σ))) []).
Proof.
  intros Ho Ha. rewrite (extractFeatures_run _ _ _ _ Ho Ha).
  unfold features_of. simpl map. by rewrite five_ratio_nil, std_dev_nil.
Qed.

Lemma neuralNetworkPredict_nil σ b o :
  objects σ !! b = Some o → arrays σ !! b_ratings o = Some [] →
  neuralNetworkPredict b σ = Ok NaN (with_array σ (fresh (dom (arrays σ))) []).
Proof.
  intros Ho Ha. unfold neuralNetworkPredict.
  erewrite bind_Ok by (by apply calculateTrustScore_empty with o).
  erewrite bind_Ok by (by apply extractFeatures_nil).
  reflexivity.
Qed.

(** C9. On a business without ratings [calculateTrustScore] returns early
    and writes nothing; [extractFeatures] then computes 0/0 for
    [fiveStarRatio] and passes on whatever [b.entropy] holds (nothing, on a
    business never evaluated with ratings); [neuralNetworkPredict] returns
    [NaN], which is no number of [0, 1]. *)
Theorem empty_business_fraud_is_NaN σ b o :
  objects σ !! b = Some o →
  arrays σ !! b_ratings o = Some [] →
  calculateTrustScore b σ = Ok (Num 0) σ ∧
  (∃ f σ', extractFeatures b σ = Ok f σ' ∧
           fiveStarRatio f = NaN ∧ entropy f = b_entropy o ∧
           neuralNetworkPredict b σ = Ok NaN σ') ∧
  (∀ x σ', neuralNetworkPredict b σ ≠ Ok (Num x) σ').
Proof.
  intros Ho Ha. split; [by apply calculateTrustScore_empty with o|].
  split.
  - eexists _, _. rewrite (extractFeatures_nil _ _ _ Ho Ha).
    rewrite (neuralNetworkPredict_nil _ _ _ Ho Ha). done.
  - intros x σ'. by rewrite (neuralNetworkPredict_nil _ _ _ Ho Ha).
Qed.

Lemma empty_business_fraud_is_NaN_witness :
  calculateTrustScore 1%positive empty_state = Ok (Num 0) empty_state ∧
  (∃ f σ', extractFeatures 1%positive empty_state = Ok f σ' ∧
           fiveStarRatio f = NaN ∧ entropy f = None ∧
           neuralNetworkPredict 1%positive empty_state = Ok NaN σ') ∧
  (∀ x σ', neuralNetworkPredict 1%positive empty_state ≠ Ok (Num x) σ').
Proof.
  apply (empty_business_fraud_is_NaN empty_state 1%positive empty_business).
  - reflexivity.
  - reflexivity.
Defined.

(** C4 at the business without ratings: [calculateTrustScore] returns 0
    but leaves [rawAverage] and [entropy] missing, where C4 has them 0;
    [showBreakdown], which reads [b.rawAverage] right after the call,
    throws. *)
Theorem empty_business_not_cached :
  ∃ σ' o',
    calculateTrustScore 1%positive empty_state = Ok (Num 0) σ' ∧
    objects σ' !! 1%positive = Some o' ∧
    b_rawAverage o' = None ∧ b_entropy o' = None ∧
    b_rawAverage o' ≠ Some (Num 0) ∧ b_entropy o' ≠ Some (Num 0) ∧
    showBreakdown 1%positive empty_state = Throw TypeError.
Proof.
  exists empty_state, empty_business.
  split; [by apply calculateTrustScore_empty with empty_business|].
  split; [reflexivity|]. do 4 (split; [done|]).
  unfold showBreakdown.
  erewrite bind_Ok by (by apply calculateTrustScore_empty with empty_business).
  erewrite bind_Ok by (by apply neuralNetworkPredict_nil with empty_business).
  erewrite bind_Ok by (apply getObject_Ok; reflexivity).
  reflexivity.
Qed.

(** ** Extremes of the normalized entropy *)

Section Extremes.
Local Open Scope R_scope.

Lemma entropy_after_run σ b o rs :
  objects σ !! b = Some o → arrays σ !! b_ratings o = Some rs → rs ≠ [] →
  entropy_after b σ = Some (normalized_entropy (map score rs)).
Proof.
  intros Ho Ha Hne. unfold entropy_after.
  rewrite (calculateTrustScore_run _ _ _ _ Ho Ha Hne).
  by rewrite lookup_with_object.
Qed.

Lemma plogp_fifth k : k ≠ 0%nat → plogp k (5 * k) = - (/ 5 * ln 5).
Proof.
  intros Hk. pose proof (INR_pos_of_ne k Hk) as Hpos.
  unfold plogp. case_decide; [done|].
  rewrite mult_INR. simpl INR.
  replace (INR k / ((1 + 1 + 1 + 1 + 1) * INR k)) with (/ 5) by (field; lra).
  rewrite ln_Rinv by lra. lra.
Qed.

Lemma normalized_entropy_uniform l k :
  valid_scores l → k ≠ 0%nat →
  (∀ s, (1 ≤ s ≤ 5)%Z → count_score s l = k) →
  normalized_entropy l = Num 1.
Proof.
  intros Hv Hk Hc.
  pose proof (count_score_total l Hv) as Htot.
  rewrite !Hc in Htot by lia.
  assert (length l = (5 * k)%nat) as Hlen by lia.
  rewrite normalized_entropy_valid; [|done|destruct l; simpl in *; [lia | done]].
  rewrite !Hc by lia. rewrite Hlen, plogp_fifth by done.
  f_equal. pose proof ln5_pos. field. lra.
Qed.

Lemma count_score_replicate k n s :
  count_score k (replicate n s) = if decide (s = k) then n else 0%nat.
Proof.
  induction n as [|n IH]; simpl replicate.
  - by case_decide.
  - rewrite count_score_cons, IH. by case_decide.
Qed.

Lemma entropy_zero_counts v e :
  foldl (entropy_step v) (Num e) (replicate 5 (Some (Num 0))) = Num e.
Proof.
  cbn [replicate foldl]. unfold entropy_step. by rewrite !num_gt_false by lra.
Qed.

Lemma entropy_holes v e k :
  foldl (entropy_step v) e (replicate k None) = e.
Proof. induction k as [|k IH]; [done|]. simpl. exact IH. Qed.

(** A score below 1 touches no element of [counts]. *)
Lemma counts_below counts n s :
  (s < 1)%Z →
  foldl (λ counts r, counts_incr counts (r - 1)) counts (replicate n s) = counts.
Proof.
  intros Hs. induction n as [|n IH]; [done|].
  simpl. unfold counts_incr at 2.
  destruct (Z.ltb_spec (s - 1) 0) as [_|H]; [exact IH | lia].
Qed.

(** A score above 5 grows [counts] once, by holes and a final [NaN]. *)
Lemma counts_above n s :
  (5 < s)%Z → n ≠ 0%nat →
  foldl (λ counts r, counts_incr counts (r - 1)) (replicate 5 (Some (Num 0)))
        (replicate n s) =
  replicate 5 (Some (Num 0)) ++ replicate (Z.to_nat (s - 1) - 5) None ++ [Some NaN].
Proof.
  intros Hs Hn. destruct n as [|n]; [done|]. clear Hn.
  set (i := Z.to_nat (s - 1)). assert (5 ≤ i)%nat as Hi by lia.
  set (L := replicate 5 (Some (Num 0)) ++ replicate (i - 5) None ++ [Some NaN]).
  assert (counts_incr (replicate 5 (Some (Num 0))) (s - 1) = L) as Hfirst.
  { unfold counts_incr. fold i.
    destruct (Z.ltb_spec (s - 1) 0) as [H|_]; [lia|].
    case_decide as Hlt; [simpl in Hlt; lia|].
    rewrite (lookup_ge_None_2 _ i) by (simpl; lia). reflexivity. }
  assert (L !! i = Some (Some NaN)) as Hlook.
  { unfold L. rewrite lookup_app_r by (simpl; lia).
    rewrite lookup_app_r by (rewrite length_replicate; simpl; lia).
    rewrite !length_replicate.
    replace (i - 5 - (i - 5))%nat with 0%nat by lia. reflexivity. }
  assert (counts_incr L (s - 1) = L) as Hnext.
  { unfold counts_incr. fold i.
    destruct (Z.ltb_spec (s - 1) 0) as [H|_]; [lia|].
    case_decide as Hlt.
    - rewrite Hlook. simpl. by apply list_insert_id.
    - exfalso. apply Hlt. apply lookup_lt_Some in Hlook. exact Hlook. }
  change (replicate (S n) s) with (s :: replicate n s).
  cbn [foldl]. rewrite Hfirst.
  clear Hfirst. induction n as [|n IH]; [done|].
  change (replicate (S n) s) with (s :: replicate n s).
  cbn [foldl]. by rewrite Hnext.
Qed.

Lemma normalized_entropy_constant n s :
  n ≠ 0%nat → normalized_entropy (replicate n s) = Num 0.
Proof.
  intros Hn. pose proof ln5_pos as Hln.
  assert (Num (0 / ln 5) = Num 0) as Hzero by (f_equal; field; lra).
  destruct (Z.lt_ge_cases s 1) as [Hlo|Hlo];
    [|destruct (Z.lt_ge_cases 5 s) as [Hhi|Hhi]].
  - unfold normalized_entropy. rewrite counts_below by done.
    rewrite entropy_zero_counts, Math_log_5, num_div_Num by lra. exact Hzero.
  - unfold normalized_entropy. rewrite counts_above by done.
    rewrite !foldl_app, entropy_zero_counts, entropy_holes. simpl foldl.
    rewrite Math_log_5, num_div_Num by lra. exact Hzero.
  - rewrite normalized_entropy_valid.
    + rewrite !count_score_replicate, length_replicate.
      repeat case_decide; rewrite ?plogp_none, ?plogp_all by done;
        f_equal; field; lra.
    + apply Forall_replicate. lia.
    + by destruct n.
Qed.

(** C6. After [calculateTrustScore], [b.entropy] is 1 for a business
    whose valid ratings hold each score 1..5 equally often, and 0 for a
    business with at least one rating whose ratings all carry one score. *)
Theorem entropy_extremes σ b o rs :
  objects σ !! b = Some o →
  arrays σ !! b_ratings o = Some rs →
  (valid_scores (map score rs) →
   (∃ k, k ≠ 0%nat ∧ ∀ s, (1 ≤ s ≤ 5)%Z → count_score s (map score rs) = k) →
   entropy_after b σ = Some (Num 1)) ∧
  (rs ≠ [] → (∃ s, Forall (λ r, score r = s) rs) →
   entropy_after b σ = Some (Num 0)).
Proof.
  intros Ho Ha. split.
  - intros Hv (k & Hk & Hc).
    assert (rs ≠ []) as Hne.
    { intros ->. specialize (Hc 1%Z ltac:(lia)). by subst k. }
    rewrite (entropy_after_run _ _ _ _ Ho Ha Hne).
    f_equal. by apply normalized_entropy_uniform with k.
  - intros Hne (s & Hs).
    rewrite (entropy_after_run _ _ _ _ Ho Ha Hne). f_equal.
    assert (map score rs = replicate (length rs) s) as ->.
    { symmetry. apply replicate_as_Forall. split; [by rewrite length_map|].
      apply Forall_fmap. eapply Forall_impl; [exact Hs|]. by intros r <-. }
    apply normalized_entropy_constant. by destruct rs.
Qed.

Lemma entropy_extremes_witness :
  entropy_after 1%positive (mixed_state (Num 3)) = Some (Num 1) ∧
  entropy_after 1%positive (sample_state (Num 3)) = Some (Num 0).
Proof.
  split.
  - apply (entropy_extremes (mixed_state (Num 3)) 1%positive sample_business
             mixed_ratings eq_refl eq_refl).
    + repeat constructor; simpl; lia.
    + exists 1%nat. split; [done|]. intros s Hs.
      assert (s = 1 ∨ s = 2 ∨ s = 3 ∨ s = 4 ∨ s = 5)%Z as Hcase by lia.
      destruct Hcase as [->|[->|[->|[->| ->]]]]; reflexivity.
  - apply (entropy_extremes (sample_state (Num 3)) 1%positive sample_business
             sample_ratings eq_refl eq_refl).
    + discriminate.
    + exists 5%Z. repeat constructor.
Defined.

End Extremes.

(** ** The stable sort by date *)

Section Sorting.

Lemma insert_sorted_perm cmp x l : insert_sorted cmp x l ≡ₚ x :: l.
Proof.
  induction l as [|y l IH]; simpl; [done|].
  case_match; [done|]. rewrite IH. apply Permutation_swap.
Qed.

Lemma stable_sort_perm cmp l : stable_sort cmp l ≡ₚ l.
Proof.
  unfold stable_sort. induction l as [|x l IH]; simpl; [done|].
  by rewrite insert_sorted_perm, IH.
Qed.

Lemma stable_sort_length cmp l : length (stable_sort cmp l) = length l.
Proof. apply Permutation_length, stable_sort_perm. Qed.

Lemma insert_sorted_sorted x l :
  StronglySorted date_le l → StronglySorted date_le (insert_sorted by_date x l).
Proof.
  induction 1 as [|y l Hl IH Hy]; simpl.
  - by repeat constructor.
  - unfold by_date at 1. destruct (Z.leb_spec (date x - date y) 0) as [Hle|Hgt].
    + constructor; [by constructor|].
      constructor; [unfold date_le; lia|].
      eapply Forall_impl; [exact Hy|]. unfold date_le. intros z Hz. lia.
    + constructor; [exact IH|].
      rewrite insert_sorted_perm. constructor; [unfold date_le; lia | exact Hy].
Qed.

Lemma stable_sort_sorted l : StronglySorted date_le (stable_sort by_date l).
Proof.
  unfold stable_sort. induction l as [|x l IH]; simpl; [constructor|].
  by apply insert_sorted_sorted.
Qed.

(** Inserting a rating moves it past ratings of other dates only. *)
Lemma insert_sorted_filter d x l :
  filter (λ r, date r = d) (insert_sorted by_date x l) =
  filter (λ r, date r = d) (x :: l).
Proof.
  induction l as [|y l IH]; simpl; [done|].
  unfold by_date at 1. destruct (Z.leb_spec (date x - date y) 0) as [Hle|Hgt]; [done|].
  rewrite (filter_cons _ y), IH, !filter_cons.
  repeat case_decide; try done; lia.
Qed.

Lemma stable_sort_filter d l :
  filter (λ r, date r = d) (stable_sort by_date l) = filter (λ r, date r = d) l.
Proof.
  unfold stable_sort. induction l as [|x l IH]; simpl; [done|].
  rewrite insert_sorted_filter, !filter_cons, IH. done.
Qed.

Lemma stable_sort_spec l : stably_sorted_by_date l (stable_sort by_date l).
Proof.
  split; [apply stable_sort_perm|].
  split; [apply stable_sort_sorted|]. intros d. apply stable_sort_filter.
Qed.

(** Two lists sorted by date that agree date by date are equal. *)
Lemma sorted_by_date_unique s1 s2 :
  StronglySorted date_le s1 → StronglySorted date_le s2 →
  (∀ d, filter (λ r, date r = d) s1 = filter (λ r, date r = d) s2) →
  s1 = s2.
Proof.
  intros H1. revert s2.
  induction H1 as [|x s1 Hs1 IH Hx]; intros s2 H2 Hf.
  - destruct s2 as [|y s2]; [done|].
    specialize (Hf (date y)). rewrite filter_cons_True in Hf by done. done.
  - destruct H2 as [|y s2 Hs2 Hy].
    { specialize (Hf (date x)). rewrite filter_cons_True in Hf by done. done. }
    assert (date x = date y) as Hd.
    { pose proof (Hf (date x)) as Fx. pose proof (Hf (date y)) as Fy.
      rewrite filter_cons_True in Fx by done.
      rewrite (filter_cons_True _ y) in Fy by done.
      destruct (decide (date x = date y)) as [|Hne]; [done|].
      rewrite filter_cons_False in Fx by (intros E; by apply Hne).
      rewrite filter_cons_False in Fy by done.
      assert (x ∈ s2) as Hxin.
      { eapply (list_elem_of_filter (λ r, date r = date x)).
        rewrite <- Fx. apply list_elem_of_here. }
      assert (y ∈ s1) as Hyin.
      { eapply (list_elem_of_filter (λ r, date r = date y)).
        rewrite Fy. apply list_elem_of_here. }
      rewrite Forall_forall in Hx, Hy.
      pose proof (Hx _ Hyin). pose proof (Hy _ Hxin). unfold date_le in *. lia. }
    assert (x = y) as <-.
    { specialize (Hf (date x)).
      rewrite filter_cons_True in Hf by done.
      rewrite filter_cons_True in Hf by done. by injection Hf. }
    f_equal. apply IH; [done|]. intros d. specialize (Hf d).
    rewrite !filter_cons in Hf. case_decide; [by injection Hf | done].
Qed.

Lemma stably_sorted_unique l s :
  stably_sorted_by_date l s → s = stable_sort by_date l.
Proof.
  intros (_ & Hs & Hf). apply sorted_by_date_unique; [done|apply stable_sort_sorted|].
  intros d. by rewrite Hf, stable_sort_filter.
Qed.

Lemma stable_sort_of_sorted l :
  StronglySorted date_le l → stable_sort by_date l = l.
Proof.
  intros Hl. symmetry. apply stably_sorted_unique. by repeat split.
Qed.

Lemma last_ten_drop s : last_ten s = drop (length s - 10) s.
Proof.
  unfold last_ten. case_decide as H; [|done].
  by replace (length s - 10)%nat with 0%nat by lia.
Qed.

Lemma recent_ratio_spec l :
  recent_ratio l = spec_recentFiveRatio (stable_sort by_date l).
Proof.
  unfold recent_ratio, recent_window, spec_recentFiveRatio. cbv zeta.
  rewrite <- last_ten_drop. unfold five_stars, of_nat.
  destruct (stable_sort by_date l) as [|x s] eqn:E; [done|].
  assert (0 < length (last_ten (x :: s)))%nat as Hpos.
  { rewrite last_ten_drop, length_drop. simpl length. lia. }
  case_decide; [|lia].
  apply num_div_Num. apply lt_0_INR in Hpos. lra.
Qed.

End Sorting.

(** C7. [recentFiveRatio] is the five-star ratio over the last 10 (or
    all, if fewer) of the ratings sorted ascending by date with ties in
    their original order; such a sorted list exists and is the only one;
    the ratio is 0 for a business without ratings; and of 12 ratings in
    chronological order only the last 10 count. *)
Theorem recent_window_ratio σ b o rs :
  objects σ !! b = Some o →
  arrays σ !! b_ratings o = Some rs →
  ∃ f σ',
    extractFeatures b σ = Ok f σ' ∧
    (∃ s, stably_sorted_by_date rs s) ∧
    (∀ s, stably_sorted_by_date rs s → recentFiveRatio f = spec_recentFiveRatio s) ∧
    (rs = [] → recentFiveRatio f = Num 0) ∧
    (∀ r1 r2 w, rs = r1 :: r2 :: w → length w = 10%nat →
                StronglySorted date_le rs →
                recentFiveRatio f = Num (INR (five_stars w) / 10)).
Proof.
  intros Ho Ha. eexists _, _.
  split; [by apply extractFeatures_run|].
  cbn [features_of recentFiveRatio].
  split; [exists (stable_sort by_date rs); apply stable_sort_spec|].
  split; [|split].
  - intros s Hs. rewrite (stably_sorted_unique _ _ Hs). apply recent_ratio_spec.
  - by intros ->.
  - intros r1 r2 w -> Hlen Hsorted.
    rewrite recent_ratio_spec, (stable_sort_of_sorted _ Hsorted).
    unfold spec_recentFiveRatio. rewrite last_ten_drop.
    cbn [length]. rewrite Hlen. simpl drop.
    rewrite drop_0, Hlen. do 2 f_equal. simpl. lra.
Qed.

Lemma recent_window_ratio_witness :
  ∃ f σ', extractFeatures 1%positive twelve_state = Ok f σ' ∧
          recentFiveRatio f = Num (0 / 10).
Proof.
  destruct (recent_window_ratio twelve_state 1%positive sample_business
              twelve_ratings eq_refl eq_refl) as (f & σ' & Hrun & _ & _ & _ & H12).
  exists f, σ'. split; [exact Hrun|].
  apply (H12 (Rating 5 10) (Rating 5 20) (drop 2 twelve_ratings) eq_refl eq_refl).
  repeat constructor; unfold date_le; simpl; lia.
Defined.

(** ** The fixed-weight formula *)

Section Formula.
Local Open Scope R_scope.

Lemma clamp_min_max x : Rmin (Rmax x 0) 1 = clamp x 0 1.
Proof.
  unfold clamp, Rmin, Rmax.
  repeat (destruct (Rle_dec _ _) || destruct (Rlt_dec _ _)); lra.
Qed.

Lemma network_R_spec fr vol e rr :
  network_R fr vol e rr = spec_fraudConfidence fr rr e vol.
Proof. unfold network_R, spec_fraudConfidence, sigmoid. apply clamp_min_max. Qed.

Lemma features_finite rs :
  rs ≠ [] → valid_scores (map score rs) →
  ∃ fr rr x vol,
    features_of rs (Some (normalized_entropy (map score rs))) =
    Features (Num fr) (Num vol) (Some (Num x)) (Num rr).
Proof.
  intros Hne Hv. assert (map score rs ≠ []) as Hne' by (by destruct rs).
  unfold features_of.
  destruct (five_ratio_Num _ Hne') as (fr & ->).
  destruct (std_dev_Num _ Hne') as (vol & ->).
  destruct (normalized_entropy_range _ Hv Hne') as (x & -> & _).
  destruct (recent_ratio_Num rs) as (rr & ->).
  by exists fr, rr, x, vol.
Qed.

(** C5. [neuralNetworkPredict] runs [calculateTrustScore], then
    [extractFeatures], and returns the two-layer expression on the features
    extracted; on finite features this is
    [clamp (1/(1+e^-hidden2)) 0 1] with
    [hidden1 = fiveStarRatio*0.8 + recentFiveRatio*1.2 + (1-entropy)*0.6] and
    [hidden2 = hidden1*0.7 + (0.5-volatility)*0.9]; the features of a
    business with valid ratings are finite. *)
Theorem fraud_confidence_formula σ b o rs :
  objects σ !! b = Some o →
  arrays σ !! b_ratings o = Some rs →
  ∃ t σ1 f σ2 r,
    calculateTrustScore b σ = Ok t σ1 ∧
    extractFeatures b σ1 = Ok f σ2 ∧
    neuralNetworkPredict b σ = Ok r σ2 ∧
    r = network f ∧
    (∀ fr rr e vol,
       fiveStarRatio f = Num fr → recentFiveRatio f = Num rr →
       entropy f = Some (Num e) → volatility f = Num vol →
       r = Num (spec_fraudConfidence fr rr e vol)) ∧
    (rs ≠ [] → valid_scores (map score rs) →
     ∃ fr rr e vol, f = Features (Num fr) (Num vol) (Some (Num e)) (Num rr)).
Proof.
  intros Ho Ha.
  destruct (calculateTrustScore_total _ _ _ _ Ho Ha)
    as (t & o' & Hrun & _ & _ & Hr & _ & Hc).
  assert (extractFeatures b (with_object σ b o') =
          Ok (features_of rs (b_entropy o'))
             (with_array (with_object σ b o')
                (fresh (dom (arrays (with_object σ b o')))) (stable_sort by_date rs)))
    as Hf.
  { apply extractFeatures_run; [apply lookup_with_object|]. by rewrite Hr. }
  eexists t, _, _, _, _.
  split; [exact Hrun|]. split; [exact Hf|].
  split; [|split; [reflexivity|split]].
  - unfold neuralNetworkPredict. rewrite (bind_Ok _ _ _ _ _ Hrun).
    rewrite (bind_Ok _ _ _ _ _ Hf). reflexivity.
  - intros fr rr e vol E1 E2 E3 E4.
    destruct (features_of rs (b_entropy o')) as [f1 f2 f3 f4].
    simpl in E1, E2, E3, E4. subst.
    rewrite network_Num. f_equal. apply network_R_spec.
  - intros Hne Hv. destruct (Hc Hne) as [-> _]. cbn [cached b_entropy].
    by apply features_finite.
Qed.

Lemma fraud_confidence_formula_witness :
  ∃ σ' fr rr e vol,
    neuralNetworkPredict 1%positive (sample_state (Num 3)) =
      Ok (Num (spec_fraudConfidence fr rr e vol)) σ'.
Proof.
  destruct (fraud_confidence_formula (sample_state (Num 3)) 1%positive
              sample_business sample_ratings eq_refl eq_refl)
    as (t & σ1 & f & σ2 & r & _ & _ & Hrun & _ & Hspec & Hfin).
  destruct Hfin as (fr & rr & e & vol & ->);
    [discriminate | repeat constructor; simpl; lia |].
  exists σ2, fr, rr, e, vol.
  by rewrite Hrun, (Hspec fr rr e vol eq_refl eq_refl eq_refl eq_refl).
Defined.

End Formula.

(** ** Evaluating twice *)

Lemma calculateTrustScore_value σ b o rs :
  objects σ !! b = Some o → arrays σ !! b_ratings o = Some rs →
  calculateTrustScore b σ =
    Ok (trust_value rs (globalAverage σ))
       (with_object σ b (object_after o rs (globalAverage σ))).
Proof.
  intros Ho Ha. unfold trust_value, object_after. case_decide as E.
  - subst rs. rewrite with_object_id by done. by apply calculateTrustScore_empty with o.
  - by apply calculateTrustScore_run.
Qed.

Lemma object_after_ratings o rs g : b_ratings (object_after o rs g) = b_ratings o.
Proof. unfold object_after. by case_decide. Qed.

Lemma object_after_same o rs g : same_identity o (object_after o rs g).
Proof. unfold object_after. by case_decide. Qed.

Lemma object_after_twice o rs g :
  object_after (object_after o rs g) rs g = object_after o rs g.
Proof. unfold object_after. by case_decide. Qed.

Lemma fresh_array_unused σ : arrays σ !! fresh (dom (arrays σ)) = None.
Proof. apply not_elem_of_dom, is_fresh. Qed.

Lemma lookup_with_array_old σ a rs a' rs' :
  arrays σ !! a' = Some rs' → arrays σ !! a = None →
  arrays (with_array σ a rs) !! a' = Some rs'.
Proof.
  intros H Hnone. simpl. rewrite lookup_insert_ne; [done|]. congruence.
Qed.

Lemma neuralNetworkPredict_value σ b o rs :
  objects σ !! b = Some o → arrays σ !! b_ratings o = Some rs →
  neuralNetworkPredict b σ =
    Ok (network (features_of rs (b_entropy (object_after o rs (globalAverage σ)))))
       (with_array (with_object σ b (object_after o rs (globalAverage σ)))
                   (fresh (dom (arrays σ))) (stable_sort by_date rs)).
Proof.
  intros Ho Ha. unfold neuralNetworkPredict.
  rewrite (bind_Ok _ _ _ _ _ (calculateTrustScore_value _ _ _ _ Ho Ha)).
  erewrite bind_Ok.
  2:{ apply extractFeatures_run; [apply lookup_with_object|].
      rewrite object_after_ratings. exact Ha. }
  reflexivity.
Qed.

Lemma scoreCard_run σ b o rs :
  objects σ !! b = Some o → arrays σ !! b_ratings o = Some rs →
  scoreCard b σ =
    Ok (trust_value rs (globalAverage σ),
        network (features_of rs (b_entropy (object_after o rs (globalAverage σ)))))
       (with_array (with_object σ b (object_after o rs (globalAverage σ)))
                   (fresh (dom (arrays σ))) (stable_sort by_date rs)).
Proof.
  intros Ho Ha. unfold scoreCard.
  rewrite (bind_Ok _ _ _ _ _ (calculateTrustScore_value _ _ _ _ Ho Ha)).
  erewrite bind_Ok.
  2:{ apply neuralNetworkPredict_value; [apply lookup_with_object|].
      rewrite object_after_ratings. exact Ha. }
  cbn [globalAverage with_object]. rewrite object_after_twice, with_object_twice.
  reflexivity.
Qed.

(** C8. Scoring a business twice in a row, the ratings and the global
    average untouched in between, returns the same trust score and the same
    fraud confidence both times, and leaves the same business record. *)
Theorem scoring_twice_same σ b o rs :
  objects σ !! b = Some o →
  arrays σ !! b_ratings o = Some rs →
  ∃ trust deepAI σ1 σ2,
    scoreCard b σ = Ok (trust, deepAI) σ1 ∧
    scoreCard b σ1 = Ok (trust, deepAI) σ2 ∧
    objects σ2 = objects σ1.
Proof.
  intros Ho Ha. eexists _, _, _, _.
  split; [by apply scoreCard_run|].
  set (g := globalAverage σ). set (o1 := object_after o rs g).
  set (σ1 := with_array (with_object σ b o1) _ _).
  assert (objects σ1 !! b = Some o1) as Ho1 by apply lookup_with_object.
  assert (arrays σ1 !! b_ratings o1 = Some rs) as Ha1.
  { apply lookup_with_array_old; [|exact (fresh_array_unused σ)].
    unfold o1. by rewrite object_after_ratings. }
  rewrite (scoreCard_run _ _ _ _ Ho1 Ha1).
  change (globalAverage σ1) with g. unfold o1. rewrite object_after_twice.
  split; [reflexivity|]. fold o1.
  cbn [objects with_array with_object σ1]. by rewrite insert_insert_eq.
Qed.

Lemma scoring_twice_same_witness :
  ∃ trust deepAI σ1 σ2,
    scoreCard 1%positive (sample_state (Num 3)) = Ok (trust, deepAI) σ1 ∧
    scoreCard 1%positive σ1 = Ok (trust, deepAI) σ2 ∧
    objects σ2 = objects σ1.
Proof.
  apply (scoring_twice_same (sample_state (Num 3)) 1%positive sample_business
           sample_ratings).
  - reflexivity.
  - reflexivity.
Defined.

(** ** What the scoring operations leave alone *)

Section Frame.

Lemma same_identity_refl o : same_identity o o.
Proof. done. Qed.

Lemma preserves_refl b σ : preserves_raw_data b σ σ.
Proof.
  repeat split; try done. intros o Ho. exists o. split; [done | apply same_identity_refl].
Qed.

Lemma preserves_with_object b σ o o' :
  objects σ !! b = Some o → same_identity o o' →
  preserves_raw_data b σ (with_object σ b o').
Proof.
  intros Ho Hsame. repeat split; try done.
  - intros b' Hb'. simpl. by rewrite lookup_insert_ne.
  - intros o0 Ho0. exists o'. split; [apply lookup_with_object|]. congruence.
Qed.

Lemma preserves_with_array b σ a s :
  arrays σ !! a = None → preserves_raw_data b σ (with_array σ a s).
Proof.
  intros Ha. repeat split; try done.
  - intros o Ho. exists o. split; [done | apply same_identity_refl].
  - intros a' rs' Ha'. by apply lookup_with_array_old.
Qed.

Lemma preserves_trans b σ1 σ2 σ3 :
  preserves_raw_data b σ1 σ2 → preserves_raw_data b σ2 σ3 →
  preserves_raw_data b σ1 σ3.
Proof.
  intros (Hd & Hg & Hother & Hb & Harr) (Hd' & Hg' & Hother' & Hb' & Harr').
  repeat split.
  - congruence.
  - congruence.
  - intros b' Hne. rewrite Hother' by done. by apply Hother.
  - intros o Ho. destruct (Hb o Ho) as (o2 & Ho2 & Hs2 & Hs2' & Hs2'').
    destruct (Hb' o2 Ho2) as (o3 & Ho3 & Hs3 & Hs3' & Hs3'').
    exists o3. split; [done|]. repeat split; congruence.
  - intros a rs Ha. by apply Harr', Harr.
Qed.

Lemma preserves_ratings b σ σ' o rs :
  objects σ !! b = Some o → arrays σ !! b_ratings o = Some rs →
  preserves_raw_data b σ σ' → ratings_of b σ' = Some rs.
Proof.
  intros Ho Ha (_ & _ & _ & Hb & Harr).
  destruct (Hb o Ho) as (o' & Ho' & _ & _ & Hr).
  unfold ratings_of. rewrite Ho', Hr. by apply Harr.
Qed.

(** C10. Each scoring operation returns and leaves the globals, the other
    businesses, the name, category and ratings reference of [b] and every
    existing array as they were, so [b.ratings] still holds the same
    sequence.  [calculateTrustScore] only replaces the record of [b] by one
    of the same identity; [calculateVolatility] changes nothing;
    [extractFeatures] only adds a new array, the copy it sorts. *)
Theorem scoring_preserves_raw_data σ b o rs :
  objects σ !! b = Some o →
  arrays σ !! b_ratings o = Some rs →
  (∃ t o', calculateTrustScore b σ = Ok t (with_object σ b o') ∧
           same_identity o o' ∧
           preserves_raw_data b σ (with_object σ b o') ∧
           ratings_of b (with_object σ b o') = Some rs) ∧
  (∃ v, calculateVolatility b σ = Ok v σ) ∧
  (∃ f a s, extractFeatures b σ = Ok f (with_array σ a s) ∧
            arrays σ !! a = None ∧ s = stable_sort by_date rs ∧
            preserves_raw_data b σ (with_array σ a s) ∧
            ratings_of b (with_array σ a s) = Some rs) ∧
  (∃ r σ', neuralNetworkPredict b σ = Ok r σ' ∧
           preserves_raw_data b σ σ' ∧
           ratings_of b σ' = Some rs).
Proof.
  intros Ho Ha.
  pose proof (object_after_same o rs (globalAverage σ)) as Hsame.
  pose proof (preserves_with_object b σ o _ Ho Hsame) as Hp1.
  pose proof (preserves_with_array b σ _ (stable_sort by_date rs)
                (fresh_array_unused σ)) as Hp2.
  split; [|split; [|split]].
  - eexists _, _. split; [by apply calculateTrustScore_value|].
    split; [done|]. split; [done|]. by apply preserves_ratings with σ o.
  - exists (std_dev (map score rs)). by apply calculateVolatility_run with o.
  - eexists _, _, _. split; [by apply extractFeatures_run|].
    split; [apply fresh_array_unused|]. split; [done|]. split; [done|].
    by apply preserves_ratings with σ o.
  - eexists _, _. split; [by apply neuralNetworkPredict_value|].
    assert (preserves_raw_data b σ
              (with_array (with_object σ b (object_after o rs (globalAverage σ)))
                 (fresh (dom (arrays σ))) (stable_sort by_date rs))) as Hp.
    { eapply preserves_trans; [exact Hp1|].
      apply preserves_with_array. exact (fresh_array_unused σ). }
    split; [done|]. by apply preserves_ratings with σ o.
Qed.

Lemma scoring_preserves_raw_data_witness :
  (∃ f a s, extractFeatures 1%positive shuffled_state
              = Ok f (with_array shuffled_state a s) ∧
            arrays shuffled_state !! a = None ∧
            s = stable_sort by_date shuffled_ratings ∧
            preserves_raw_data 1%positive shuffled_state
              (with_array shuffled_state a s) ∧
            ratings_of 1%positive (with_array shuffled_state a s)
              = Some shuffled_ratings) ∧
  (∃ r σ', neuralNetworkPredict 1%positive shuffled_state = Ok r σ' ∧
           preserves_raw_data 1%positive shuffled_state σ' ∧
           ratings_of 1%positive σ' = Some shuffled_ratings).
Proof.
  apply (scoring_preserves_raw_data shuffled_state 1%positive sample_business
           shuffled_ratings).
  - reflexivity.
  - reflexivity.
Defined.

End Frame.

(** * Further properties of the script *)

(** ** Bayesian smoothing *)

Section Smoothing.
Local Open Scope R_scope.

Lemma bayes_smoothing_Num v a g :
  bayes_smoothing (of_nat v) (Num a) (Num g) =
  Num (INR v / (INR v + 15) * a + 15 / (INR v + 15) * g).
Proof.
  pose proof (pos_INR v). unfold bayes_smoothing, of_nat, m. cbn [num_add].
  rewrite !num_div_Num by lra. reflexivity.
Qed.

Lemma bayes_offset v a g :
  ∃ y, bayes_smoothing (of_nat v) (Num a) (Num g) = Num y ∧
       y - a = 15 / (INR v + 15) * (g - a).
Proof.
  pose proof (pos_INR v) as Hv. rewrite bayes_smoothing_Num.
  eexists; split; [reflexivity|].
  assert (INR v / (INR v + 15) = 1 - 15 / (INR v + 15)) as -> by (field; lra).
  ring.
Qed.


(** With enough ratings the smoothed value is as close to the business's
    own average as wanted, whatever the global average in [1, 5]. *)
Theorem bayes_converges_to_average ε :
  0 < ε →
  ∃ N : nat, ∀ v a g,
    (N ≤ v)%nat → 1 <= a <= 5 → 1 <= g <= 5 →
    ∃ y, bayes_smoothing (of_nat v) (Num a) (Num g) = Num y ∧ Rabs (y - a) < ε.
Proof.
  intros Hε.
  destruct (archimed (60 / ε)) as [Hup _].
  assert (0 < 60 / ε) as Hpos by (apply Rdiv_lt_0_compat; lra).
  exists (Z.to_nat (up (60 / ε))). intros v a g Hv Ha Hg.
  destruct (bayes_offset v a g) as (y & Hy & Hd).
  exists y. split; [exact Hy|]. rewrite Hd.
  assert (IZR (up (60 / ε)) <= INR v) as Hlarge.
  { rewrite INR_IZR_INZ. apply IZR_le.
    assert (0 < up (60 / ε))%Z by (apply lt_IZR; lra). lia. }
  assert (60 < ε * (INR v + 15)) as Hlt.
  { assert (60 / ε * ε = 60) as E by (field; lra). nra. }
  assert (0 < INR v + 15) as Hden by (pose proof (pos_INR v); lra).
  assert (0 < 15 / (INR v + 15)) as Hw by (apply Rdiv_lt_0_compat; lra).
  rewrite Rabs_mult, (Rabs_pos_eq (15 / (INR v + 15))) by lra.
  assert (Rabs (g - a) <= 4) as Hga.
  { unfold Rabs. destruct (Rcase_abs (g - a)); lra. }
  assert (15 / (INR v + 15) * 4 < ε) as Hfin.
  { replace (15 / (INR v + 15) * 4) with (60 / (INR v + 15)) by (field; lra).
    assert (60 / (INR v + 15) * (INR v + 15) = 60) as E by (field; lra).
    nra. }
  pose proof (Rabs_pos (g - a)). nra.
Qed.

Lemma bayes_converges_to_average_witness :
  ∃ N : nat, ∀ v a g,
    (N ≤ v)%nat → 1 <= a <= 5 → 1 <= g <= 5 →
    ∃ y, bayes_smoothing (of_nat v) (Num a) (Num g) = Num y ∧ Rabs (y - a) < 1.
Proof. apply (bayes_converges_to_average 1). lra. Defined.

End Smoothing.

(** ** Volatility *)

Section Volatility.
Local Open Scope R_scope.





Lemma sum_replicate n s : foldr Z.add 0%Z (replicate n s) = (Z.of_nat n * s)%Z.
Proof. induction n as [|n IH]; [done|]. cbn [replicate foldr]. rewrite IH. lia. Qed.

Lemma std_dev_constant n s : n ≠ 0%nat → std_dev (replicate n s) = Num 0.
Proof.
  intros Hn. pose proof (INR_pos_of_ne n Hn) as Hpos.
  unfold std_dev. rewrite sum_scores_Num, sum_replicate, length_replicate.
  unfold of_nat. rewrite num_div_Num by lra.
  replace (IZR (Z.of_nat n * s) / INR n) with (IZR s)
    by (rewrite mult_IZR, <- INR_IZR_INZ; field; lra).
  assert (∀ x, foldl (λ sum r, num_add sum (Math_pow (num_sub (of_Z r) (Num (IZR s))) 2))
                     (Num x) (replicate n s) = Num x) as Hfold.
  { clear. unfold of_Z. induction n as [|n IH]; intros x; [done|].
    cbn [replicate foldl Math_pow num_sub num_neg num_add num_mul].
    cbn [Math_pow num_sub num_neg num_add num_mul] in IH.
    replace (x + (IZR s + - IZR s) * (IZR s + - IZR s)) with x by ring. apply IH. }
  rewrite Hfold, num_div_Num by lra.
  replace (0 / INR n) with 0 by (field; lra).
  rewrite Math_sqrt_Num by lra. by rewrite sqrt_0.
Qed.



End Volatility.

(** ** Scores outside 1..5 *)

Section AnyScores.
Local Open Scope R_scope.

Lemma counts_incr_cells counts i :
  Forall count_cell counts → Forall count_cell (counts_incr counts i).
Proof.
  intros Hc. unfold counts_incr.
  destruct (Z.ltb_spec i 0) as [_|_]; [done|].
  set (n := Z.to_nat i).
  assert (count_cell (Some (num_add (to_num (mjoin (counts !! n))) (Num 1)))) as Hnew.
  { destruct (counts !! n) as [c|] eqn:E; [|right; by left].
    rewrite Forall_forall in Hc.
    destruct (Hc c) as [->|[->|[k ->]]].
    - eapply list_elem_of_lookup_2, E.
    - right; by left.
    - right; by left.
    - right; right. exists (S k). simpl. unfold of_nat. by rewrite S_INR. }
  case_decide.
  - by apply Forall_insert.
  - apply Forall_app. split; [done|]. apply Forall_app. split.
    + apply Forall_replicate. by left.
    + by constructor.
Qed.

Lemma counts_cells l :
  Forall count_cell
    (foldl (λ counts r, counts_incr counts (r - 1)) (replicate 5 (Some (Num 0))) l).
Proof.
  assert (Forall count_cell (replicate 5 (Some (Num 0)))) as H0.
  { apply Forall_replicate. right; right. by exists 0%nat. }
  revert H0. generalize (replicate 5 (Some (Num 0))).
  induction l as [|r l IH]; intros counts Hc; [done|].
  cbn [foldl]. apply IH. by apply counts_incr_cells.
Qed.

Lemma entropy_step_cell n x c :
  n ≠ 0%nat → count_cell c → ∃ y, entropy_step (of_nat n) (Num x) c = Num y.
Proof.
  intros Hn [->|[->|[k ->]]].
  - by exists x.
  - by exists x.
  - rewrite entropy_step_Num by done. by eexists.
Qed.

Lemma entropy_cells n x counts :
  n ≠ 0%nat → Forall count_cell counts →
  ∃ y, foldl (entropy_step (of_nat n)) (Num x) counts = Num y.
Proof.
  intros Hn Hc. revert x. induction Hc as [|c counts Hc _ IH]; intros x.
  - by exists x.
  - cbn [foldl]. destruct (entropy_step_cell n x c Hn Hc) as (y & ->). apply IH.
Qed.

Lemma normalized_entropy_Num l : l ≠ [] → ∃ e, normalized_entropy l = Num e.
Proof.
  intros Hne. assert (length l ≠ 0%nat) as Hn by (by destruct l).
  unfold normalized_entropy.
  destruct (entropy_cells (length l) 0 _ Hn (counts_cells l)) as (y & ->).
  rewrite Math_log_5, num_div_Num; [by eexists|]. pose proof ln5_pos. lra.
Qed.

Lemma raw_average_Num l : l ≠ [] → ∃ a, raw_average l = Num a.
Proof.
  intros Hne. assert (length l ≠ 0%nat) as Hn by (by destruct l).
  pose proof (INR_pos_of_ne _ Hn).
  unfold raw_average, of_nat. rewrite sum_scores_Num, num_div_Num by lra.
  by eexists.
Qed.

Lemma final_trust_Num l g : l ≠ [] → ∃ s, final_trust l (Num g) = Num s.
Proof.
  intros Hne. unfold final_trust.
  destruct (raw_average_Num l Hne) as (a & ->).
  destruct (normalized_entropy_Num l Hne) as (e & ->).
  rewrite bayes_smoothing_Num, num_div_Num by lra.
  by eexists.
Qed.

Lemma trust_value_integer rs g : ∃ z, trust_value rs (Num g) = of_Z z.
Proof.
  unfold trust_value. case_decide as E; [by exists 0%Z|].
  destruct (final_trust_Num (map score rs) g) as (s & ->); [by destruct rs|].
  by eexists.
Qed.



Lemma sigmoid_range h : 0 < sigmoid h < 1.
Proof.
  unfold sigmoid. pose proof (exp_pos (- h)) as He.
  assert (0 < 1 / (1 + exp (- h))) as H0 by (apply Rdiv_lt_0_compat; lra).
  split; [done|].
  assert (1 / (1 + exp (- h)) * (1 + exp (- h)) = 1) as E by (field; lra).
  nra.
Qed.

Lemma clamp_inactive x : 0 < x < 1 → clamp x 0 1 = x.
Proof.
  intros [H0 H1]. unfold clamp.
  destruct (Rlt_dec x 0); [lra|]. destruct (Rlt_dec 1 x); [lra | done].
Qed.

Lemma fraud_value_Num rs :
  rs ≠ [] →
  ∃ fr rr e vol,
    features_of rs (Some (normalized_entropy (map score rs))) =
      Features (Num fr) (Num vol) (Some (Num e)) (Num rr) ∧
    fraud_value rs =
      Num (sigmoid ((fr * 0.8 + rr * 1.2 + (1 - e) * 0.6) * 0.7 + (0.5 - vol) * 0.9)).
Proof.
  intros Hne. assert (map score rs ≠ []) as Hne' by (by destruct rs).
  unfold fraud_value. case_decide; [done|]. unfold features_of.
  destruct (five_ratio_Num _ Hne') as (fr & ->).
  destruct (std_dev_Num _ Hne') as (vol & ->).
  destruct (normalized_entropy_Num _ Hne') as (e & ->).
  destruct (recent_ratio_Num rs) as (rr & ->).
  exists fr, rr, e, vol. split; [done|].
  rewrite network_Num, network_R_spec. unfold spec_fraudConfidence. cbv zeta.
  f_equal. apply clamp_inactive, sigmoid_range.
Qed.

Lemma neuralNetworkPredict_fraud σ b o rs :
  objects σ !! b = Some o → arrays σ !! b_ratings o = Some rs →
  neuralNetworkPredict b σ =
    Ok (fraud_value rs)
       (with_array (with_object σ b (object_after o rs (globalAverage σ)))
                   (fresh (dom (arrays σ))) (stable_sort by_date rs)).
Proof.
  intros Ho Ha. rewrite (neuralNetworkPredict_value _ _ _ _ Ho Ha).
  f_equal. unfold fraud_value, object_after. case_decide as E; [|done].
  subst rs. unfold features_of. simpl map. by rewrite five_ratio_nil, !network_NaN.
Qed.



End AnyScores.

(** ** A card *)

Section Card.
Local Open Scope R_scope.

Lemma object_after_name o rs g : b_name (object_after o rs g) = b_name o.
Proof. unfold object_after. by case_decide. Qed.

Lemma object_after_category o rs g : b_category (object_after o rs g) = b_category o.
Proof. unfold object_after. by case_decide. Qed.

Lemma render_card_run σ b o rs :
  objects σ !! b = Some o → arrays σ !! b_ratings o = Some rs →
  render_card b σ =
    Ok (Card (b_name o) (b_category o) (trust_value rs (globalAverage σ))
             (getScoreColor (trust_value rs (globalAverage σ)))
             (num_mul (fraud_value rs) (Num 100))
             (num_gt (fraud_value rs) (Num 0.75)))
       (with_array (with_object σ b (object_after o rs (globalAverage σ)))
                   (fresh (dom (arrays σ))) (stable_sort by_date rs)).
Proof.
  intros Ho Ha. unfold render_card.
  rewrite (bind_Ok _ _ _ _ _ (calculateTrustScore_value _ _ _ _ Ho Ha)).
  erewrite bind_Ok.
  2:{ apply neuralNetworkPredict_fraud; [apply lookup_with_object|].
      rewrite object_after_ratings. exact Ha. }
  cbn [globalAverage with_object]. rewrite object_after_twice, with_object_twice.
  erewrite bind_Ok by (apply getObject_Ok, lookup_with_object).
  by rewrite object_after_name, object_after_category.
Qed.

Lemma recent_window_length rs :
  length (recent_window rs) = Nat.min 10 (length rs).
Proof.
  unfold recent_window. cbv zeta. rewrite length_drop, stable_sort_length. lia.
Qed.

Lemma recent_window_elem rs r : r ∈ recent_window rs → r ∈ rs.
Proof.
  unfold recent_window. cbv zeta. intros H.
  apply (subseteq_drop _ _ r) in H.
  by rewrite stable_sort_perm in H.
Qed.

Lemma five_ratio_constant n s :
  n ≠ 0%nat → five_ratio (replicate n s) = Num (if decide (s = 5%Z) then 1 else 0).
Proof.
  intros Hn. pose proof (INR_pos_of_ne n Hn).
  unfold five_ratio. fold (count_score 5 (replicate n s)).
  rewrite count_score_replicate, length_replicate. unfold of_nat.
  rewrite num_div_Num by lra. f_equal.
  case_decide; simpl INR; field; lra.
Qed.

Lemma filter_all {A} (P : A → Prop) `{∀ x, Decision (P x)} (l : list A) :
  Forall P l → filter P l = l.
Proof.
  induction 1 as [|x l Hx _ IH]; [done|].
  by rewrite filter_cons_True, IH.
Qed.

Lemma filter_none {A} (P : A → Prop) `{∀ x, Decision (P x)} (l : list A) :
  Forall (λ x, ¬ P x) l → filter P l = [].
Proof.
  induction 1 as [|x l Hx _ IH]; [done|].
  by rewrite filter_cons_False.
Qed.

Lemma recent_ratio_constant rs s :
  rs ≠ [] → Forall (λ r, score r = s) rs →
  recent_ratio rs = Num (if decide (s = 5%Z) then 1 else 0).
Proof.
  intros Hne Hs. unfold recent_ratio. cbv zeta.
  assert (0 < length (recent_window rs))%nat as Hlen.
  { rewrite recent_window_length. destruct rs; [done|]. simpl. lia. }
  assert (Forall (λ r, score r = s) (recent_window rs)) as Hw.
  { rewrite Forall_forall in Hs. apply Forall_forall. intros r Hr.
    by apply Hs, recent_window_elem. }
  case_decide; [|lia]. unfold of_nat.
  pose proof (lt_0_INR _ Hlen) as Hpos.
  rewrite num_div_Num by lra. f_equal.
  destruct (decide (s = 5%Z)) as [->|Hs5].
  - rewrite filter_all by done. field. lra.
  - rewrite filter_none.
    + simpl INR. field. lra.
    + eapply Forall_impl; [exact Hw|]. simpl. intros r Hr. congruence.
Qed.

Lemma fraud_value_constant rs s :
  rs ≠ [] → Forall (λ r, score r = s) rs →
  fraud_value rs =
    Num (sigmoid (if decide (s = 5%Z) then 2.27 else 0.87)).
Proof.
  intros Hne Hs.
  assert (map score rs = replicate (length rs) s) as Hrep.
  { symmetry. apply replicate_as_Forall. split; [by rewrite length_map|].
    apply Forall_fmap. eapply Forall_impl; [exact Hs|]. by intros r <-. }
  assert (length rs ≠ 0%nat) as Hn by (by destruct rs).
  unfold fraud_value. case_decide; [done|]. unfold features_of.
  rewrite Hrep, five_ratio_constant, std_dev_constant, normalized_entropy_constant,
    (recent_ratio_constant rs s) by done.
  rewrite network_Num, network_R_spec. unfold spec_fraudConfidence. cbv zeta.
  rewrite clamp_inactive by apply sigmoid_range.
  do 2 f_equal. case_decide; lra.
Qed.

Lemma sigmoid_high : 0.75 < sigmoid 2.27.
Proof.
  unfold sigmoid. rewrite exp_Ropp.
  pose proof (exp_ineq1_le 2.27) as H. pose proof (exp_pos 2.27) as Hpos.
  assert (0 < / exp 2.27) as Hip by (by apply Rinv_0_lt_compat).
  assert (/ exp 2.27 * exp 2.27 = 1) as Hinv by (field; lra).
  set (e := / exp 2.27) in *.
  assert (1 / (1 + e) * (1 + e) = 1) as E by (field; lra).
  nra.
Qed.

Lemma sigmoid_low : sigmoid 0.87 < 0.75.
Proof.
  unfold sigmoid. rewrite exp_Ropp.
  pose proof exp_le_3 as H3. pose proof (exp_increasing 0.87 1 ltac:(lra)) as Hinc.
  pose proof (exp_pos 0.87) as Hpos.
  assert (0 < / exp 0.87) as Hip by (by apply Rinv_0_lt_compat).
  assert (/ exp 0.87 * exp 0.87 = 1) as Hinv by (field; lra).
  set (e := / exp 0.87) in *.
  assert (1 / (1 + e) * (1 + e) = 1) as E by (field; lra).
  nra.
Qed.

(** A business whose ratings all carry one score gets the high-risk line
    on its card exactly when that score is 5, however many ratings it has
    and whatever the global average. *)
Theorem constant_ratings_flagged_iff_five_stars σ b o rs s :
  objects σ !! b = Some o →
  arrays σ !! b_ratings o = Some rs →
  rs ≠ [] →
  Forall (λ r, score r = s) rs →
  ∃ c σ', render_card b σ = Ok c σ' ∧
          card_flagged c = bool_decide (s = 5%Z).
Proof.
  intros Ho Ha Hne Hs. rewrite (render_card_run _ _ _ _ Ho Ha).
  eexists _, _. split; [reflexivity|]. cbn [card_flagged].
  rewrite (fraud_value_constant rs s Hne Hs).
  case_decide as E.
  - rewrite bool_decide_eq_true_2 by done. apply num_gt_true, sigmoid_high.
  - rewrite bool_decide_eq_false_2 by done. apply num_gt_false.
    left. apply sigmoid_low.
Qed.

Lemma constant_ratings_flagged_iff_five_stars_witness :
  ∃ c σ', render_card 1%positive (sample_state (Num 3)) = Ok c σ' ∧
          card_flagged c = true.
Proof.
  apply (constant_ratings_flagged_iff_five_stars (sample_state (Num 3)) 1%positive
           sample_business sample_ratings 5%Z).
  - reflexivity.
  - reflexivity.
  - discriminate.
  - repeat constructor.
Defined.

End Card.

(** ** Rated and unrated businesses *)

Section Rated.
Local Open Scope R_scope.

(** In a dataset with valid ratings, [calculateTrustScore] returns 0 for
    the businesses without ratings and for no other: a business with
    ratings scores between 16 and 100. *)
Theorem zero_score_iff_unrated σ b o rs g :
  objects σ !! b = Some o →
  arrays σ !! b_ratings o = Some rs →
  globalAverage σ = Num g →
  1 <= g <= 5 →
  valid_scores (map score rs) →
  ∃ z σ', calculateTrustScore b σ = Ok (of_Z z) σ' ∧
          (z = 0%Z ↔ rs = []) ∧
          (rs ≠ [] → (16 ≤ z ≤ 100)%Z).
Proof.
  intros Ho Ha Hg Hgr Hv. rewrite (calculateTrustScore_value _ _ _ _ Ho Ha), Hg.
  unfold trust_value. case_decide as E.
  - exists 0%Z. eexists. split; [reflexivity|]. split; [done|]. done.
  - assert (map score rs ≠ []) as Hne' by (by destruct rs).
    destruct (final_trust_range _ g Hv Hne' Hgr) as (s & -> & Hs).
    destruct (Math_round_range s 16 100 Hs) as (z & -> & Hz).
    exists z. eexists. split; [reflexivity|]. split; [|done].
    split; [lia | done].
Qed.

Lemma zero_score_iff_unrated_witness :
  ∃ z σ', calculateTrustScore 1%positive (mixed_state (Num 3)) = Ok (of_Z z) σ' ∧
          (z = 0%Z ↔ mixed_ratings = []) ∧
          (mixed_ratings ≠ [] → (16 ≤ z ≤ 100)%Z).
Proof.
  apply (zero_score_iff_unrated (mixed_state (Num 3)) 1%positive sample_business
           mixed_ratings 3).
  - reflexivity.
  - reflexivity.
  - reflexivity.
  - lra.
  - repeat constructor; simpl; lia.
Defined.

End Rated.

(** ** The ratio features *)

Section Ratios.
Local Open Scope R_scope.

Lemma five_ratio_as_five_stars rs :
  rs ≠ [] →
  five_ratio (map score rs) = Num (INR (five_stars rs) / INR (length rs)).
Proof.
  intros Hne. assert (length rs ≠ 0%nat) as Hn by (by destruct rs).
  pose proof (INR_pos_of_ne _ Hn).
  unfold five_ratio, five_stars, of_nat. rewrite length_map.
  rewrite num_div_Num by lra. do 3 f_equal.
  clear. induction rs as [|r rs IH]; [done|].
  cbn [map]. rewrite !filter_cons.
  destruct (decide (score r = 5%Z)); simpl; by rewrite IH.
Qed.

Lemma recent_ratio_as_five_stars rs :
  rs ≠ [] →
  recent_ratio rs =
    Num (INR (five_stars (recent_window rs)) / INR (length (recent_window rs))).
Proof.
  intros Hne. unfold recent_ratio. cbv zeta.
  assert (0 < length (recent_window rs))%nat as Hlen.
  { rewrite recent_window_length. destruct rs; [done|]. simpl. lia. }
  case_decide; [|lia]. unfold of_nat, five_stars.
  apply num_div_Num. apply lt_0_INR in Hlen. lra.
Qed.

Lemma five_stars_le w : (five_stars w ≤ length w)%nat.
Proof. apply length_filter. Qed.

Lemma ratio_range k n : (k ≤ n)%nat → n ≠ 0%nat → 0 <= INR k / INR n <= 1.
Proof.
  intros Hk Hn. pose proof (INR_pos_of_ne n Hn). pose proof (pos_INR k).
  apply le_INR in Hk. split; [apply Rdiv_le_lower | apply Rdiv_le_upper]; lra.
Qed.

(** For a business with ratings both ratio features are numbers between
    0 and 1, and the recent window holds the smaller of 10 and the number
    of ratings. *)
Theorem ratio_features_in_unit_interval σ b o rs :
  objects σ !! b = Some o →
  arrays σ !! b_ratings o = Some rs →
  rs ≠ [] →
  ∃ f σ' x y,
    extractFeatures b σ = Ok f σ' ∧
    fiveStarRatio f = Num x ∧ 0 <= x <= 1 ∧
    recentFiveRatio f = Num y ∧ 0 <= y <= 1 ∧
    y = INR (five_stars (recent_window rs)) / INR (Nat.min 10 (length rs)).
Proof.
  intros Ho Ha Hne. rewrite (extractFeatures_run _ _ _ _ Ho Ha).
  eexists _, _, _, _. split; [reflexivity|].
  cbn [features_of fiveStarRatio recentFiveRatio].
  rewrite five_ratio_as_five_stars, recent_ratio_as_five_stars by done.
  assert (length rs ≠ 0%nat) as Hn by (by destruct rs).
  assert (length (recent_window rs) ≠ 0%nat) as Hw
    by (rewrite recent_window_length; lia).
  split; [reflexivity|]. split; [by apply ratio_range, Hn; apply five_stars_le|].
  split; [reflexivity|]. split; [by apply ratio_range, Hw; apply five_stars_le|].
  by rewrite recent_window_length.
Qed.

Lemma ratio_features_in_unit_interval_witness :
  ∃ f σ' x y,
    extractFeatures 1%positive twelve_state = Ok f σ' ∧
    fiveStarRatio f = Num x ∧ 0 <= x <= 1 ∧
    recentFiveRatio f = Num y ∧ 0 <= y <= 1 ∧
    y = INR (five_stars (recent_window twelve_ratings))
        / INR (Nat.min 10 (length twelve_ratings)).
Proof.
  apply (ratio_features_in_unit_interval twelve_state 1%positive sample_business
           twelve_ratings).
  - reflexivity.
  - reflexivity.
  - discriminate.
Defined.

(** With at most 10 ratings the recent window is the whole list, and
    [recentFiveRatio] equals [fiveStarRatio]. *)
Theorem recent_ratio_of_small_business σ b o rs :
  objects σ !! b = Some o →
  arrays σ !! b_ratings o = Some rs →
  rs ≠ [] →
  (length rs ≤ 10)%nat →
  ∃ f σ', extractFeatures b σ = Ok f σ' ∧
          recentFiveRatio f = fiveStarRatio f.
Proof.
  intros Ho Ha Hne Hlen. rewrite (extractFeatures_run _ _ _ _ Ho Ha).
  eexists _, _. split; [reflexivity|].
  cbn [features_of fiveStarRatio recentFiveRatio].
  rewrite five_ratio_as_five_stars, recent_ratio_as_five_stars by done.
  assert (recent_window rs = stable_sort by_date rs) as ->.
  { unfold recent_window. cbv zeta. rewrite stable_sort_length.
    by replace (length rs - 10)%nat with 0%nat by lia. }
  unfold five_stars. by rewrite (stable_sort_perm by_date rs).
Qed.

Lemma recent_ratio_of_small_business_witness :
  ∃ f σ', extractFeatures 1%positive shuffled_state = Ok f σ' ∧
          recentFiveRatio f = fiveStarRatio f.
Proof.
  apply (recent_ratio_of_small_business shuffled_state 1%positive sample_business
           shuffled_ratings).
  - reflexivity.
  - reflexivity.
  - discriminate.
  - simpl. lia.
Defined.

End Ratios.

(** ** States that differ by cached fields and fresh arrays *)

Section SameRawData.

Lemma same_raw_data_refl σ : same_raw_data σ σ.
Proof.
  repeat split; try done. intros b o Ho. exists o. by repeat split.
Qed.

Lemma same_raw_data_trans σ1 σ2 σ3 :
  same_raw_data σ1 σ2 → same_raw_data σ2 σ3 → same_raw_data σ1 σ3.
Proof.
  intros (Hg & Hb & Harr) (Hg' & Hb' & Harr'). repeat split.
  - congruence.
  - intros b o Ho. destruct (Hb b o Ho) as (o2 & Ho2 & Hn & Hc & Hr).
    destruct (Hb' b o2 Ho2) as (o3 & Ho3 & Hn' & Hc' & Hr').
    exists o3. split; [done|]. repeat split; congruence.
  - intros a rs Ha. by apply Harr', Harr.
Qed.

Lemma preserves_same_raw_data b σ σ' :
  preserves_raw_data b σ σ' → same_raw_data σ σ'.
Proof.
  intros (_ & Hg & Hother & Hb & Harr). repeat split; [done| |done].
  intros b' o Ho. destruct (decide (b' = b)) as [->|Hne]; [by apply Hb|].
  exists o. rewrite Hother by done. by repeat split.
Qed.

Lemma same_raw_data_ratings σ σ' b rs :
  same_raw_data σ σ' → ratings_of b σ = Some rs → ratings_of b σ' = Some rs.
Proof.
  intros (_ & Hb & Harr). unfold ratings_of.
  destruct (objects σ !! b) as [o|] eqn:Ho; [|done]. intros Ha.
  destruct (Hb b o Ho) as (o' & -> & _ & _ & Hr). rewrite Hr. by apply Harr.
Qed.

Lemma same_raw_data_loaded σ σ' b :
  same_raw_data σ σ' → loaded σ b → loaded σ' b.
Proof.
  intros Hs [rs Hrs]. exists rs. by apply same_raw_data_ratings with σ.
Qed.

Lemma same_raw_data_trust σ σ' b :
  same_raw_data σ σ' → loaded σ b → trust_in σ' b = trust_in σ b.
Proof.
  intros Hs [rs Hrs]. unfold trust_in.
  rewrite (same_raw_data_ratings _ _ _ _ Hs Hrs), Hrs. by destruct Hs as [-> _].
Qed.

Lemma same_raw_data_card σ σ' b :
  same_raw_data σ σ' → loaded σ b → card_in σ' b = card_in σ b.
Proof.
  intros Hs Hl. pose proof (same_raw_data_trust _ _ _ Hs Hl) as Ht.
  destruct Hl as [rs Hrs].
  pose proof (same_raw_data_ratings _ _ _ _ Hs Hrs) as Hrs'.
  unfold card_in, fraud_in. rewrite Ht, Hrs, Hrs'.
  unfold ratings_of in Hrs. destruct (objects σ !! b) as [o|] eqn:Ho; [|done].
  destruct Hs as (_ & Hb & _). destruct (Hb b o Ho) as (o' & -> & Hn & Hc & _).
  by rewrite Hn, Hc.
Qed.

Lemma loaded_inv σ b :
  loaded σ b →
  ∃ o rs, objects σ !! b = Some o ∧ arrays σ !! b_ratings o = Some rs ∧
          ratings_of b σ = Some rs.
Proof.
  intros [rs Hrs]. unfold ratings_of in *.
  destruct (objects σ !! b) as [o|] eqn:Ho; [|done]. by exists o, rs.
Qed.

Lemma scored_state_same σ b o rs :
  objects σ !! b = Some o → arrays σ !! b_ratings o = Some rs →
  same_raw_data σ (with_object σ b (object_after o rs (globalAverage σ))).
Proof.
  intros Ho Ha. apply (preserves_same_raw_data b).
  apply preserves_with_object with o; [done | apply object_after_same].
Qed.

Lemma carded_state_same σ b o rs :
  objects σ !! b = Some o → arrays σ !! b_ratings o = Some rs →
  same_raw_data σ
    (with_array (with_object σ b (object_after o rs (globalAverage σ)))
                (fresh (dom (arrays σ))) (stable_sort by_date rs)).
Proof.
  intros Ho Ha. eapply same_raw_data_trans; [by apply scored_state_same|].
  apply (preserves_same_raw_data b), preserves_with_array.
  exact (fresh_array_unused σ).
Qed.

Lemma calculateTrustScore_in σ b :
  loaded σ b →
  ∃ σ', calculateTrustScore b σ = Ok (trust_in σ b) σ' ∧
        same_raw_data σ σ' ∧ businessesData σ' = businessesData σ.
Proof.
  intros Hl. destruct (loaded_inv _ _ Hl) as (o & rs & Ho & Ha & Hrs).
  eexists. rewrite (calculateTrustScore_value _ _ _ _ Ho Ha).
  unfold trust_in. rewrite Hrs. split; [reflexivity|].
  split; [by apply scored_state_same | done].
Qed.

Lemma render_card_in σ b :
  loaded σ b →
  ∃ c σ', render_card b σ = Ok c σ' ∧ card_in σ b = Some c ∧
          same_raw_data σ σ' ∧ businessesData σ' = businessesData σ.
Proof.
  intros Hl. destruct (loaded_inv _ _ Hl) as (o & rs & Ho & Ha & Hrs).
  eexists _, _. rewrite (render_card_run _ _ _ _ Ho Ha).
  split; [reflexivity|]. unfold card_in, trust_in, fraud_in. rewrite Ho, Hrs.
  split; [reflexivity|]. split; [by apply carded_state_same | done].
Qed.

End SameRawData.

(** ** Running [renderBusinesses] *)

Section Rendering.

Lemma by_trust_run sort σ a b :
  loaded σ a → loaded σ b →
  ∃ σ', by_trust sort a b σ =
          Ok (if decide (sort = "high")
              then num_sub (trust_in σ b) (trust_in σ a)
              else num_sub (trust_in σ a) (trust_in σ b)) σ' ∧
        same_raw_data σ σ' ∧ businessesData σ' = businessesData σ.
Proof.
  intros Ha Hb.
  destruct (calculateTrustScore_in σ a Ha) as (σ1 & Hrun1 & Hs1 & Hd1).
  destruct (calculateTrustScore_in σ1 b (same_raw_data_loaded _ _ _ Hs1 Hb))
    as (σ2 & Hrun2 & Hs2 & Hd2).
  exists σ2. unfold by_trust.
  rewrite (bind_Ok _ _ _ _ _ Hrun1), (bind_Ok _ _ _ _ _ Hrun2).
  rewrite (same_raw_data_trust _ _ _ Hs1 Hb).
  split; [reflexivity|]. split; [by eapply same_raw_data_trans | congruence].
Qed.

Lemma insert_by_ext after after' x l :
  (∀ y, y ∈ l → after x y = after' x y) →
  insert_by after x l = insert_by after' x l.
Proof.
  induction l as [|y l IH]; intros H; [done|]. simpl.
  rewrite (H y) by apply list_elem_of_here.
  rewrite IH; [done|]. intros z Hz. apply H. by apply list_elem_of_further.
Qed.

Lemma insert_sortedM_run sort k x l σ :
  Forall (loaded σ) (x :: l) →
  (∀ b, b ∈ x :: l → trust_in σ b = k b) →
  ∃ σ', insert_sortedM (by_trust sort) x l σ =
          Ok (insert_by (behind sort k) x l) σ' ∧
        same_raw_data σ σ' ∧ businessesData σ' = businessesData σ.
Proof.
  revert σ. induction l as [|y l IH]; intros σ Hl Hk.
  - exists σ. split; [reflexivity|]. split; [apply same_raw_data_refl | done].
  - assert (loaded σ x) as Hx by (by inversion Hl).
    assert (loaded σ y) as Hy by (inversion Hl as [|?? _ Hl']; by inversion Hl').
    destruct (by_trust_run sort σ x y Hx Hy) as (σ1 & Hrun & Hs1 & Hd1).
    cbn [insert_sortedM insert_by]. rewrite (bind_Ok _ _ _ _ _ Hrun).
    rewrite (Hk x) by apply list_elem_of_here.
    rewrite (Hk y) by apply list_elem_of_further, list_elem_of_here.
    fold (behind sort k x y).
    destruct (behind sort k x y).
    + destruct (IH σ1) as (σ2 & Hrun2 & Hs2 & Hd2).
      { inversion Hl as [|?? _ Hl']. inversion Hl' as [|?? _ Hl''].
        constructor; [by eapply same_raw_data_loaded|].
        eapply Forall_impl; [exact Hl''|]. intros b. by apply same_raw_data_loaded. }
      { intros b Hb.
        assert (b ∈ x :: y :: l) as Hb'.
        { apply elem_of_cons in Hb as [->|Hb];
            [apply list_elem_of_here | by do 2 apply list_elem_of_further]. }
        rewrite (same_raw_data_trust _ _ _ Hs1); [by apply Hk|].
        rewrite Forall_forall in Hl. by apply Hl. }
      exists σ2. rewrite (bind_Ok _ _ _ _ _ Hrun2).
      split; [reflexivity|]. split; [by eapply same_raw_data_trans | congruence].
    + exists σ1. by split.
Qed.

Lemma insert_by_perm after x l : insert_by after x l ≡ₚ x :: l.
Proof.
  induction l as [|y l IH]; simpl; [done|].
  case_match; [|done]. rewrite IH. apply Permutation_swap.
Qed.

Lemma sort_by_perm after l : sort_by after l ≡ₚ l.
Proof.
  unfold sort_by. induction l as [|x l IH]; simpl; [done|].
  by rewrite insert_by_perm, IH.
Qed.

Lemma sortM_run sort k l σ :
  Forall (loaded σ) l →
  (∀ b, b ∈ l → trust_in σ b = k b) →
  ∃ σ', sortM (by_trust sort) l σ = Ok (sort_by (behind sort k) l) σ' ∧
        same_raw_data σ σ' ∧ businessesData σ' = businessesData σ.
Proof.
  induction l as [|x l IH]; intros Hl Hk.
  - exists σ. split; [reflexivity|]. split; [apply same_raw_data_refl | done].
  - destruct IH as (σ1 & Hrun & Hs1 & Hd1).
    { by inversion Hl. }
    { intros b Hb. by apply Hk, list_elem_of_further. }
    destruct (insert_sortedM_run sort k x (sort_by (behind sort k) l) σ1)
      as (σ2 & Hrun2 & Hs2 & Hd2).
    { rewrite sort_by_perm. eapply Forall_impl; [exact Hl|].
      intros b. by apply same_raw_data_loaded. }
    { intros b Hb. rewrite sort_by_perm in Hb.
      rewrite (same_raw_data_trust _ _ _ Hs1); [by apply Hk|].
      rewrite Forall_forall in Hl. by apply Hl. }
    exists σ2. cbn [sortM]. rewrite (bind_Ok _ _ _ _ _ Hrun).
    split; [exact Hrun2|]. split; [by eapply same_raw_data_trans | congruence].
Qed.

Lemma filter_category_run category bs σ :
  Forall (loaded σ) bs →
  filter_category category bs σ = Ok (in_category σ category bs) σ.
Proof.
  unfold in_category. induction 1 as [|b bs Hb _ IH]; [done|].
  destruct (loaded_inv _ _ Hb) as (o & rs & Ho & _ & _).
  cbn [filter_category]. rewrite (bind_Ok _ _ _ _ _ (getObject_Ok _ _ _ Ho)).
  rewrite (bind_Ok _ _ _ _ _ IH). rewrite filter_cons, Ho.
  cbn [fmap option_fmap option_map].
  unfold mret, M_ret. f_equal.
  destruct (decide (b_category o = category)) as [E|E].
  - rewrite decide_True by congruence. done.
  - rewrite decide_False by congruence. done.
Qed.

Lemma cards_of_earlier_state σ σ' l cards :
  same_raw_data σ σ' → Forall (loaded σ) l →
  Forall2 (λ b c, card_in σ' b = Some c) l cards →
  Forall2 (λ b c, card_in σ b = Some c) l cards.
Proof.
  intros Hs Hl Hc. induction Hc as [|b c l cs Hb _ IH]; [constructor|].
  inversion Hl; subst. constructor; [|by apply IH].
  by rewrite <- (same_raw_data_card _ _ _ Hs).
Qed.

Lemma render_cards_run l σ :
  Forall (loaded σ) l →
  ∃ cards σ', render_cards l σ = Ok cards σ' ∧
              Forall2 (λ b c, card_in σ b = Some c) l cards ∧
              same_raw_data σ σ' ∧ businessesData σ' = businessesData σ.
Proof.
  revert σ. induction l as [|b l IH]; intros σ Hl.
  - exists [], σ. split; [reflexivity|]. split; [constructor|].
    split; [apply same_raw_data_refl | done].
  - inversion Hl as [|?? Hb Hl']; subst.
    destruct (render_card_in σ b Hb) as (c & σ1 & Hrun & Hc & Hs1 & Hd1).
    destruct (IH σ1) as (cards & σ2 & Hrun2 & Hcs & Hs2 & Hd2).
    { eapply Forall_impl; [exact Hl'|]. intros x. by apply same_raw_data_loaded. }
    exists (c :: cards), σ2. cbn [render_cards].
    rewrite (bind_Ok _ _ _ _ _ Hrun), (bind_Ok _ _ _ _ _ Hrun2).
    split; [reflexivity|]. split.
    + constructor; [done|]. by apply cards_of_earlier_state with σ1.
    + split; [by eapply same_raw_data_trans | congruence].
Qed.

Lemma in_category_loaded σ category bs :
  Forall (loaded σ) bs → Forall (loaded σ) (in_category σ category bs).
Proof.
  intros H. unfold in_category. apply Forall_forall. intros b Hb.
  apply list_elem_of_filter in Hb as [_ Hb]. rewrite Forall_forall in H. by apply H.
Qed.

Lemma renderBusinesses_run filter sort σ :
  Forall (loaded σ) (businessesData σ) →
  ∃ cards σ',
    renderBusinesses filter sort σ = Ok cards σ' ∧
    Forall2 (λ b c, card_in σ b = Some c) (shown σ filter sort) cards ∧
    same_raw_data σ σ' ∧
    businessesData σ' =
      (if decide (filter = "all") then shown σ filter sort else businessesData σ).
Proof.
  intros Hl. unfold renderBusinesses, shown.
  rewrite (bind_Ok _ _ _ _ _ (get_businessesData_Ok σ)).
  set (filtered := if decide (filter = "all") then businessesData σ
                   else in_category σ filter (businessesData σ)).
  assert (Forall (loaded σ) filtered) as Hf.
  { unfold filtered. case_decide; [done | by apply in_category_loaded]. }
  assert ((if decide (filter = "all") then mret (businessesData σ)
           else filter_category filter (businessesData σ)) σ = Ok filtered σ) as Hfil.
  { unfold filtered. case_decide; [done | by apply filter_category_run]. }
  rewrite (bind_Ok _ _ _ _ _ Hfil).
  destruct (sortM_run sort (trust_in σ) filtered σ Hf (λ _ _, eq_refl))
    as (σ1 & Hsort & Hs1 & Hd1).
  rewrite (bind_Ok _ _ _ _ _ Hsort).
  set (sorted := sort_by (behind sort (trust_in σ)) filtered) in *.
  set (σ2 := if decide (filter = "all")
             then State sorted (globalAverage σ1) (objects σ1) (arrays σ1) else σ1).
  assert ((if decide (filter = "all") then set_businessesData sorted else mret ()) σ1
          = Ok () σ2) as Hset.
  { unfold σ2. by case_decide. }
  rewrite (bind_Ok _ _ _ _ _ Hset).
  assert (same_raw_data σ σ2) as Hs2.
  { unfold σ2. case_decide; [|done].
    destruct Hs1 as (Hg & Hb & Ha). by repeat split. }
  assert (Forall (loaded σ2) sorted) as Hl2.
  { unfold sorted. rewrite sort_by_perm.
    eapply Forall_impl; [exact Hf|]. intros b. by apply same_raw_data_loaded. }
  destruct (render_cards_run sorted σ2 Hl2) as (cards & σ3 & Hrun & Hc & Hs3 & Hd3).
  exists cards, σ3. split; [exact Hrun|].
  split; [|split].
  - apply cards_of_earlier_state with σ2; [done| |done].
    unfold sorted. by rewrite sort_by_perm.
  - by eapply same_raw_data_trans.
  - rewrite Hd3. unfold σ2. case_decide; [done | exact Hd1].
Qed.

End Rendering.

(** ** The order of the cards *)

Section Order.
Local Open Scope Z_scope.

Lemma Int_part_IZR z : Int_part (IZR z) = z.
Proof.
  destruct (base_Int_part (IZR z)) as [H1 H2].
  apply le_IZR in H1.
  assert (z - 1 < Int_part (IZR z)) as H3.
  { apply lt_IZR. rewrite minus_IZR. lra. }
  lia.
Qed.

Lemma trust_in_key σ b g :
  globalAverage σ = Num g → loaded σ b → trust_in σ b = of_Z (trust_key σ b).
Proof.
  intros Hg [rs Hrs]. unfold trust_key, trust_in. rewrite Hrs, Hg.
  destruct (trust_value_integer rs g) as (z & ->).
  unfold of_Z. by rewrite Int_part_IZR.
Qed.

Lemma num_gt_sub_integer x y :
  num_gt (num_sub (of_Z y) (of_Z x)) (Num 0) = bool_decide (x < y).
Proof.
  unfold of_Z. cbn [num_sub num_neg num_add].
  destruct (decide (x < y)) as [H|H].
  - rewrite bool_decide_eq_true_2 by done. apply num_gt_true.
    apply IZR_lt in H. lra.
  - rewrite bool_decide_eq_false_2 by done. apply num_gt_false.
    assert (y <= x) as H' by lia. apply IZR_le in H'. lra.
Qed.

Lemma behind_key sort σ g x y :
  globalAverage σ = Num g → loaded σ x → loaded σ y →
  behind sort (trust_in σ) x y = bool_decide (order_key sort σ x < order_key sort σ y).
Proof.
  intros Hg Hx Hy. unfold behind, order_key.
  rewrite (trust_in_key _ _ _ Hg Hx), (trust_in_key _ _ _ Hg Hy).
  case_decide; rewrite num_gt_sub_integer; apply bool_decide_ext; lia.
Qed.

Lemma sort_by_ext after after' l :
  (∀ x y, x ∈ l → y ∈ l → after x y = after' x y) →
  sort_by after l = sort_by after' l.
Proof.
  unfold sort_by. induction l as [|x l IH]; intros H; [done|]. simpl.
  rewrite IH by (intros; apply H; by apply list_elem_of_further).
  apply insert_by_ext. intros y Hy. fold (sort_by after' l) in Hy.
  rewrite sort_by_perm in Hy.
  apply H; [apply list_elem_of_here | by apply list_elem_of_further].
Qed.

Lemma insert_by_key_sorted w x l :
  key_sorted w l → key_sorted w (insert_by (key_behind w) x l).
Proof.
  unfold key_sorted. induction 1 as [|y l Hl IH Hy]; simpl.
  - by repeat constructor.
  - unfold key_behind at 1. case_bool_decide as Hxy.
    + constructor; [exact IH|]. rewrite insert_by_perm.
      constructor; [lia | exact Hy].
    + constructor; [by constructor|]. constructor; [lia|].
      eapply Forall_impl; [exact Hy|]. simpl. intros z Hz. lia.
Qed.

Lemma sort_by_key_sorted w l : key_sorted w (sort_by (key_behind w) l).
Proof.
  unfold sort_by. induction l as [|x l IH]; simpl; [constructor|].
  by apply insert_by_key_sorted.
Qed.



Lemma sort_by_key_of_sorted w l :
  key_sorted w l → sort_by (key_behind w) l = l.
Proof.
  unfold key_sorted. induction 1 as [|x l Hl IH Hx]; [done|].
  change (sort_by (key_behind w) (x :: l))
    with (insert_by (key_behind w) x (sort_by (key_behind w) l)).
  rewrite IH. destruct l as [|y l]; [done|]. simpl.
  inversion Hx; subst. unfold key_behind. rewrite bool_decide_eq_false_2; [done | lia].
Qed.

Lemma shown_by_key filter sort σ g :
  globalAverage σ = Num g →
  Forall (loaded σ) (businessesData σ) →
  shown σ filter sort =
    sort_by (key_behind (order_key sort σ))
            (if decide (filter = "all") then businessesData σ
             else in_category σ filter (businessesData σ)).
Proof.
  intros Hg Hl. unfold shown. apply sort_by_ext. intros x y Hx Hy.
  assert (Forall (loaded σ)
            (if decide (filter = "all") then businessesData σ
             else in_category σ filter (businessesData σ))) as Hf.
  { case_decide; [done | by apply in_category_loaded]. }
  rewrite Forall_forall in Hf. apply (behind_key _ _ g); auto.
Qed.

End Order.

(** ** What [renderBusinesses] shows and leaves behind *)

Section Shown.

Lemma num_ge_integer x y : (y ≤ x)%Z → num_ge (of_Z x) (of_Z y) = true.
Proof.
  intros H. unfold of_Z. simpl. apply IZR_le in H.
  destruct (Rle_dec (IZR y) (IZR x)); [done | lra].
Qed.

Lemma card_in_trust σ b c : card_in σ b = Some c → card_trust c = trust_in σ b.
Proof.
  unfold card_in. destruct (objects σ !! b); [|done]. by intros [= <-].
Qed.



Lemma sorted_cards {A B} (R : A → A → Prop) (R' : B → B → Prop)
    (Q : A → Prop) (P : A → B → Prop) l cs :
  (∀ a b c d, Q a → Q b → R a b → P a c → P b d → R' c d) →
  StronglySorted R l → Forall Q l → Forall2 P l cs → StronglySorted R' cs.
Proof.
  intros Hstep Hs Hq Hp. revert Hs Hq.
  induction Hp as [|a c l cs Hac Hp IH]; intros Hs Hq; [constructor|].
  inversion Hs as [|?? Hs' Ha]; subst. inversion Hq as [|?? Hqa Hq']; subst.
  constructor; [by apply IH|].
  clear IH Hs Hs' Hq. induction Hp as [|b d l cs Hbd _ IH]; [constructor|].
  inversion Ha; subst. inversion Hq'; subst.
  constructor; [by apply (Hstep a b c d) | by apply IH].
Qed.

Lemma shown_loaded filter sort σ :
  Forall (loaded σ) (businessesData σ) → Forall (loaded σ) (shown σ filter sort).
Proof.
  intros Hl. unfold shown. rewrite sort_by_perm.
  case_decide; [done | by apply in_category_loaded].
Qed.

(** The cards come out in the order asked for: with ["high"] no card has
    a lower trust score than a card after it, with any other value of the
    select none has a higher one. *)
Theorem cards_in_trust_order filter sort σ g :
  Forall (loaded σ) (businessesData σ) →
  globalAverage σ = Num g →
  ∃ cards σ', renderBusinesses filter sort σ = Ok cards σ' ∧
              StronglySorted (in_trust_order sort) cards.
Proof.
  intros Hl Hg.
  destruct (renderBusinesses_run filter sort σ Hl) as (cards & σ' & Hrun & Hc & _ & _).
  exists cards, σ'. split; [exact Hrun|].
  pose proof (shown_loaded filter sort σ Hl) as Hsl.
  rewrite (shown_by_key _ _ _ g Hg Hl) in Hc, Hsl.
  eapply (sorted_cards _ _ (loaded σ)); [|apply sort_by_key_sorted|exact Hsl|exact Hc].
  intros a b c d Ha Hb Hab Hac Hbd. simpl in Hab.
  apply card_in_trust in Hac, Hbd. unfold in_trust_order. rewrite Hac, Hbd.
  rewrite (trust_in_key _ _ _ Hg Ha), (trust_in_key _ _ _ Hg Hb).
  unfold order_key in Hab. case_decide; apply num_ge_integer; lia.
Qed.

Lemma cards_in_trust_order_witness :
  ∃ cards σ', renderBusinesses "all" "high" mixed_state_two = Ok cards σ' ∧
              StronglySorted (in_trust_order "high") cards.
Proof.
  apply (cards_in_trust_order "all" "high" mixed_state_two 3).
  - repeat constructor; [by exists sample_ratings | by exists mixed_ratings].
  - reflexivity.
Defined.





End Shown.

(** ** Rendering again *)

Section Again.

Lemma filter_ext_in {A} (P Q : A → Prop) `{∀ x, Decision (P x)} `{∀ x, Decision (Q x)}
    (l : list A) :
  (∀ x, x ∈ l → P x ↔ Q x) → filter P l = filter Q l.
Proof.
  induction l as [|x l IH]; intros HPQ; [done|].
  rewrite !filter_cons, IH by (intros; apply HPQ; by apply list_elem_of_further).
  pose proof (HPQ x (list_elem_of_here _ _)) as Hx.
  destruct (decide (P x)), (decide (Q x)); tauto.
Qed.

Lemma same_raw_data_category σ σ' b :
  same_raw_data σ σ' → loaded σ b →
  b_category <$> objects σ' !! b = b_category <$> objects σ !! b.
Proof.
  intros (_ & Hb & _) Hl. destruct (loaded_inv _ _ Hl) as (o & rs & Ho & _ & _).
  destruct (Hb b o Ho) as (o' & -> & _ & Hc & _). rewrite Ho. simpl. by rewrite Hc.
Qed.

Lemma in_category_same σ σ' category l :
  same_raw_data σ σ' → Forall (loaded σ) l →
  in_category σ' category l = in_category σ category l.
Proof.
  intros Hs Hl. unfold in_category. apply filter_ext_in. intros b Hb.
  rewrite Forall_forall in Hl. by rewrite (same_raw_data_category _ _ _ Hs (Hl b Hb)).
Qed.

Lemma sort_by_same sort σ σ' l :
  same_raw_data σ σ' → Forall (loaded σ) l →
  sort_by (behind sort (trust_in σ')) l = sort_by (behind sort (trust_in σ)) l.
Proof.
  intros Hs Hl. apply sort_by_ext. intros x y Hx Hy.
  rewrite Forall_forall in Hl. unfold behind.
  by rewrite !(same_raw_data_trust _ _ _ Hs) by auto.
Qed.

Lemma sort_by_shown choice sort σ g :
  globalAverage σ = Num g → Forall (loaded σ) (businessesData σ) →
  sort_by (behind sort (trust_in σ)) (shown σ choice sort) = shown σ choice sort.
Proof.
  intros Hg Hl. pose proof (shown_loaded choice sort σ Hl) as Hsl.
  transitivity (sort_by (key_behind (order_key sort σ)) (shown σ choice sort)).
  - apply sort_by_ext. intros x y Hx Hy. rewrite Forall_forall in Hsl.
    apply (behind_key _ _ g); auto.
  - apply sort_by_key_of_sorted. rewrite (shown_by_key _ _ _ g Hg Hl).
    apply sort_by_key_sorted.
Qed.

Lemma cards_functional σ l cards cards' :
  Forall2 (λ b c, card_in σ b = Some c) l cards →
  Forall2 (λ b c, card_in σ b = Some c) l cards' →
  cards = cards'.
Proof.
  intros H. revert cards'. induction H as [|b c l cs Hb _ IH]; intros cards' H';
    inversion H'; subst; [done|].
  f_equal; [congruence | by apply IH].
Qed.

(** Calling [renderBusinesses] again with the same two selects shows the
    same cards in the same order and leaves [businessesData] as the first
    call left it. *)
Theorem rendering_again_changes_nothing choice sort σ g :
  Forall (loaded σ) (businessesData σ) →
  globalAverage σ = Num g →
  ∃ cards σ1 σ2,
    renderBusinesses choice sort σ = Ok cards σ1 ∧
    renderBusinesses choice sort σ1 = Ok cards σ2 ∧
    businessesData σ2 = businessesData σ1.
Proof.
  intros Hl Hg.
  destruct (renderBusinesses_run choice sort σ Hl)
    as (cards & σ1 & Hrun & Hc & Hs & Hd).
  pose proof (shown_loaded choice sort σ Hl) as Hsl.
  assert (Forall (loaded σ1) (businessesData σ1)) as Hl1.
  { rewrite Hd. case_decide.
    - eapply Forall_impl; [exact Hsl|]. intros b. by apply same_raw_data_loaded.
    - eapply Forall_impl; [exact Hl|]. intros b. by apply same_raw_data_loaded. }
  destruct (renderBusinesses_run choice sort σ1 Hl1)
    as (cards' & σ2 & Hrun' & Hc' & Hs' & Hd').
  assert (shown σ1 choice sort = shown σ choice sort) as Hshown.
  { unfold shown at 1. rewrite Hd. case_decide as E.
    - rewrite (sort_by_same _ _ _ _ Hs Hsl). by apply sort_by_shown with g.
    - rewrite (in_category_same _ _ _ _ Hs Hl).
      rewrite (sort_by_same _ _ _ _ Hs) by (by apply in_category_loaded).
      unfold shown. by rewrite decide_False. }
  rewrite Hshown in Hc', Hd'.
  assert (cards' = cards) as ->.
  { apply (cards_functional σ (shown σ choice sort)); [|done].
    by apply cards_of_earlier_state with σ1. }
  exists cards, σ1, σ2. split; [exact Hrun|]. split; [exact Hrun'|].
  rewrite Hd', Hd. by case_decide.
Qed.

Lemma rendering_again_changes_nothing_witness :
  ∃ cards σ1 σ2,
    renderBusinesses "all" "high" mixed_state_two = Ok cards σ1 ∧
    renderBusinesses "all" "high" σ1 = Ok cards σ2 ∧
    businessesData σ2 = businessesData σ1.
Proof.
  apply (rendering_again_changes_nothing "all" "high" mixed_state_two 3).
  - repeat constructor; [by exists sample_ratings | by exists mixed_ratings].
  - reflexivity.
Defined.

(** The card of a business without ratings shows the trust score 0 in
    red, [NaN] as fraud confidence, and no high-risk line. *)
Theorem card_of_unrated_business σ b o :
  objects σ !! b = Some o →
  arrays σ !! b_ratings o = Some [] →
  ∃ σ', render_card b σ =
          Ok (Card (b_name o) (b_category o) (Num 0) "#ef4444" NaN false) σ'.
Proof.
  intros Ho Ha. rewrite (render_card_run _ _ _ _ Ho Ha). eexists.
  unfold trust_value, fraud_value. rewrite !decide_True by done.
  unfold features_of. simpl map. rewrite five_ratio_nil, network_NaN.
  unfold getScoreColor. cbn [num_ge]. 
  destruct (Rle_dec 80 0); [lra|]. destruct (Rle_dec 50 0); [lra|].
  reflexivity.
Qed.

Lemma card_of_unrated_business_witness :
  ∃ σ', render_card 1%positive empty_state =
          Ok (Card "Kiosk" "retail" (Num 0) "#ef4444" NaN false) σ'.
Proof.
  apply (card_of_unrated_business empty_state 1%positive empty_business).
  - reflexivity.
  - reflexivity.
Defined.

End Again.

(** ** The modal *)

Section Modal.
Local Open Scope R_scope.

Lemma showBreakdown_run σ b o rs :
  objects σ !! b = Some o → arrays σ !! b_ratings o = Some rs →
  showBreakdown b σ =
    match b_rawAverage (object_after o rs (globalAverage σ)) with
    | Some x =>
        Ok (x,
            num_mul (to_num (b_entropy (object_after o rs (globalAverage σ)))) (Num 100),
            std_dev (map score rs),
            num_mul (fraud_value rs) (Num 100))
           (with_array (with_object σ b (object_after o rs (globalAverage σ)))
                       (fresh (dom (arrays σ))) (stable_sort by_date rs))
    | None => Throw TypeError
    end.
Proof.
  intros Ho Ha. unfold showBreakdown.
  rewrite (bind_Ok _ _ _ _ _ (calculateTrustScore_value _ _ _ _ Ho Ha)).
  erewrite bind_Ok.
  2:{ apply neuralNetworkPredict_fraud; [apply lookup_with_object|].
      rewrite object_after_ratings. exact Ha. }
  cbn [globalAverage with_object]. rewrite object_after_twice, with_object_twice.
  set (o1 := object_after o rs (globalAverage σ)).
  set (σ2 := with_array (with_object σ b o1) _ _).
  assert (objects σ2 !! b = Some o1) as Ho2 by apply lookup_with_object.
  assert (arrays σ2 !! b_ratings o1 = Some rs) as Ha2.
  { apply lookup_with_array_old; [|exact (fresh_array_unused σ)].
    unfold o1. by rewrite object_after_ratings. }
  rewrite (bind_Ok _ _ _ _ _ (getObject_Ok _ _ _ Ho2)).
  destruct (b_rawAverage o1) as [x|]; [|reflexivity].
  erewrite (bind_Ok (toFixed_receiver (Some x))) by reflexivity.
  rewrite (bind_Ok _ _ _ _ _ (calculateVolatility_run _ _ _ _ Ho2 Ha2)).
  reflexivity.
Qed.



(** [showBreakdown] throws exactly for the businesses that have no
    ratings and no [rawAverage] left from an earlier evaluation. *)
Theorem showBreakdown_throws_iff σ b o rs :
  objects σ !! b = Some o →
  arrays σ !! b_ratings o = Some rs →
  raises (showBreakdown b σ) ↔ rs = [] ∧ b_rawAverage o = None.
Proof.
  intros Ho Ha. rewrite (showBreakdown_run _ _ _ _ Ho Ha).
  unfold object_after. case_decide as E.
  - destruct (b_rawAverage o) as [x|].
    + split; [intros [e He]; discriminate | by intros [_ ?]].
    + split; [done | intros _; by exists TypeError].
  - cbn [cached b_rawAverage].
    split; [intros [e He]; discriminate | by intros [? _]].
Qed.

Lemma showBreakdown_throws_iff_witness :
  raises (showBreakdown 1%positive empty_state) ↔
  @nil rating = [] ∧ b_rawAverage empty_business = None.
Proof.
  apply (showBreakdown_throws_iff empty_state 1%positive empty_business []).
  - reflexivity.
  - reflexivity.
Defined.

Lemma find_by_name_none name bs σ :
  Forall (loaded σ) bs →
  Forall (λ b, b_name <$> objects σ !! b ≠ Some name) bs →
  find_by_name name bs σ = Ok None σ.
Proof.
  induction 1 as [|b bs Hb _ IH]; intros Hn; [done|].
  inversion Hn as [|?? Hbn Hn']; subst.
  destruct (loaded_inv _ _ Hb) as (o & rs & Ho & _ & _).
  cbn [find_by_name]. rewrite (bind_Ok _ _ _ _ _ (getObject_Ok _ _ _ Ho)).
  rewrite Ho in Hbn. simpl in Hbn.
  rewrite decide_False by congruence. by apply IH.
Qed.

Lemma find_by_name_first name l1 b l2 σ :
  Forall (loaded σ) l1 →
  Forall (λ b, b_name <$> objects σ !! b ≠ Some name) l1 →
  b_name <$> objects σ !! b = Some name →
  find_by_name name (l1 ++ b :: l2) σ = Ok (Some b) σ.
Proof.
  intros Hl Hn Hb. induction Hl as [|x l1 Hx _ IH].
  - destruct (objects σ !! b) as [o|] eqn:Ho; [|done].
    cbn [app find_by_name]. rewrite (bind_Ok _ _ _ _ _ (getObject_Ok _ _ _ Ho)).
    simpl in Hb. rewrite decide_True by congruence. reflexivity.
  - inversion Hn as [|?? Hxn Hn']; subst.
    destruct (loaded_inv _ _ Hx) as (o & rs & Ho & _ & _).
    cbn [app find_by_name]. rewrite (bind_Ok _ _ _ _ _ (getObject_Ok _ _ _ Ho)).
    rewrite Ho in Hxn. simpl in Hxn.
    rewrite decide_False by congruence. by apply IH.
Qed.

(** [showBreakdown(name)] works on the first business of [businessesData]
    with that name, also when several have it, and throws when none has. *)
Theorem showBreakdown_finds_first_by_name name σ :
  Forall (loaded σ) (businessesData σ) →
  (Forall (λ b, b_name <$> objects σ !! b ≠ Some name) (businessesData σ) →
   showBreakdownByName name σ = Throw TypeError) ∧
  (∀ l1 b l2,
     businessesData σ = l1 ++ b :: l2 →
     Forall (λ b, b_name <$> objects σ !! b ≠ Some name) l1 →
     b_name <$> objects σ !! b = Some name →
     showBreakdownByName name σ = showBreakdown b σ).
Proof.
  intros Hl. split.
  - intros Hn. unfold showBreakdownByName.
    rewrite (bind_Ok _ _ _ _ _ (get_businessesData_Ok σ)).
    by rewrite (bind_Ok _ _ _ _ _ (find_by_name_none _ _ _ Hl Hn)).
  - intros l1 b l2 E Hn Hb. unfold showBreakdownByName.
    rewrite (bind_Ok _ _ _ _ _ (get_businessesData_Ok σ)). rewrite E.
    rewrite E in Hl. apply Forall_app in Hl as [Hl1 _].
    by rewrite (bind_Ok _ _ _ _ _ (find_by_name_first _ _ _ _ _ Hl1 Hn Hb)).
Qed.

Lemma showBreakdown_finds_first_by_name_witness :
  showBreakdownByName "Bistro" (mixed_state (Num 3)) = Throw TypeError ∧
  showBreakdownByName "Cafe" (mixed_state (Num 3))
  = showBreakdown 1%positive (mixed_state (Num 3)).
Proof.
  destruct (showBreakdown_finds_first_by_name "Bistro" (mixed_state (Num 3)))
    as [Hnone _]; [repeat constructor; by exists mixed_ratings|].
  destruct (showBreakdown_finds_first_by_name "Cafe" (mixed_state (Num 3)))
    as [_ Hfirst]; [repeat constructor; by exists mixed_ratings|].
  split.
  - apply Hnone. repeat constructor. discriminate.
  - apply (Hfirst [] 1%positive []); [reflexivity | constructor | reflexivity].
Defined.

End Modal.

(** ** The order of the ratings *)

Section RatingsOrder.
Local Open Scope R_scope.












End RatingsOrder.

(** ** From the dataset to the cards *)

Section Dataset.
Local Open Scope R_scope.

Lemma dataset_of_loaded σ bs :
  Forall (loaded σ) bs → dataset σ bs (ratings_list σ bs).
Proof.
  unfold dataset, ratings_list. induction 1 as [|b bs Hb _ IH]; [constructor|].
  simpl. constructor; [|exact IH].
  destruct (loaded_inv _ _ Hb) as (o & rs & Ho & Ha & Hrs).
  exists o. rewrite Hrs. by split.
Qed.

Lemma computeGlobalAverage_loaded σ :
  Forall (loaded σ) (businessesData σ) →
  computeGlobalAverage σ =
    Ok tt (State (businessesData σ)
                 (raw_average (all_scores (ratings_list σ (businessesData σ))))
                 (objects σ) (arrays σ)).
Proof. intros Hl. by apply computeGlobalAverage_run, dataset_of_loaded. Qed.

Lemma all_scores_cons rs rss : all_scores (rs :: rss) = map score rs ++ all_scores rss.
Proof. reflexivity. Qed.





Lemma rated_loaded σ b : rated σ b → loaded σ b.
Proof. intros (rs & Hrs & _). by exists rs. Qed.

Lemma all_scores_rated_valid σ bs :
  Forall (rated σ) bs → valid_scores (all_scores (ratings_list σ bs)).
Proof.
  intros H. apply all_scores_valid. unfold ratings_list.
  apply Forall_fmap. eapply Forall_impl; [exact H|].
  intros b (rs & Hrs & _ & Hv). simpl. by rewrite Hrs.
Qed.

Lemma all_scores_rated_nonempty σ bs b :
  b ∈ bs → rated σ b → all_scores (ratings_list σ bs) ≠ [].
Proof.
  intros Hb (rs & Hrs & Hne & _). induction Hb as [b bs|b x bs _ IH].
  - unfold ratings_list. cbn [map]. rewrite all_scores_cons, Hrs. simpl.
    by destruct rs.
  - unfold ratings_list. cbn [map]. rewrite all_scores_cons.
    intros E. apply app_eq_nil in E as [_ E]. by apply IH.
Qed.

Lemma cards_all {A B} (P : A → B → Prop) (Q : A → Prop) (T : B → Prop) l cs :
  (∀ a c, Q a → P a c → T c) → Forall Q l → Forall2 P l cs → Forall T cs.
Proof.
  intros HT Hq Hp. induction Hp as [|a c l cs Hac _ IH]; [constructor|].
  inversion Hq; subst. constructor; [by apply (HT a) | by apply IH].
Qed.

Lemma card_of_rated σ b c g :
  globalAverage σ = Num g → 1 <= g <= 5 → rated σ b →
  card_in σ b = Some c → plausible_card c.
Proof.
  intros Hg Hgr (rs & Hrs & Hne & Hv). unfold card_in, trust_in, fraud_in.
  rewrite Hrs, Hg. destruct (objects σ !! b) as [o|]; [|done]. intros [= <-].
  assert (map score rs ≠ []) as Hne' by (by destruct rs).
  unfold trust_value. rewrite decide_False by done.
  destruct (final_trust_range _ g Hv Hne' Hgr) as (s & -> & Hs).
  destruct (Math_round_range s 16 100 Hs) as (z & -> & Hz).
  destruct (fraud_value_Num rs Hne) as (fr & rr & e & vol & _ & ->).
  match goal with |- context [sigmoid ?h] => pose proof (sigmoid_range h) as Hsig end.
  eexists z, _. cbn [card_trust card_color card_percent num_mul].
  split; [reflexivity|]. split; [done|]. split; [reflexivity|].
  split; [reflexivity|]. lra.
Qed.

(** When the fetched dataset holds only businesses with at least one
    rating and scores in 1..5, the callback of [fetch] returns, and every
    card it produces shows an integer trust score from 16 to 100, the
    colour of that score, and a fraud confidence strictly between 0 and 100
    percent. *)
Theorem dataset_gives_plausible_cards data choice sort σ :
  Forall (rated σ) data →
  ∃ cards σ', onData data choice sort σ = Ok cards σ' ∧
              Forall plausible_card cards.
Proof.
  intros Hr. unfold onData.
  set (σa := State data (globalAverage σ) (objects σ) (arrays σ)).
  assert (set_businessesData data σ = Ok () σa) as Hset by reflexivity.
  rewrite (bind_Ok _ _ _ _ _ Hset).
  assert (Forall (rated σa) data) as Hra by exact Hr.
  assert (Forall (loaded σa) (businessesData σa)) as Hla.
  { eapply Forall_impl; [exact Hra|]. apply rated_loaded. }
  rewrite (bind_Ok _ _ _ _ _ (computeGlobalAverage_loaded σa Hla)).
  set (σb := State _ _ _ _).
  assert (Forall (rated σb) data) as Hrb by exact Hr.
  assert (Forall (loaded σb) (businessesData σb)) as Hlb.
  { eapply Forall_impl; [exact Hrb|]. apply rated_loaded. }
  destruct (renderBusinesses_run choice sort σb Hlb)
    as (cards & σ' & Hrun & Hc & _ & _).
  exists cards, σ'. split; [exact Hrun|].
  assert (Forall (λ b, b ∈ data ∧ rated σb b) (shown σb choice sort)) as Hshown.
  { unfold shown. rewrite sort_by_perm. cbn [businessesData σb].
    case_decide.
    - apply Forall_forall. intros b Hb. split; [done|].
      rewrite Forall_forall in Hrb. by apply Hrb.
    - apply Forall_forall. intros b Hb. unfold in_category in Hb.
      apply list_elem_of_filter in Hb as [_ Hb]. split; [done|].
      rewrite Forall_forall in Hrb. by apply Hrb. }
  eapply cards_all; [|exact Hshown|exact Hc].
  intros b c [Hb Hbr] Hbc. simpl in Hbc.
  destruct (raw_average_range (all_scores (ratings_list σa data)))
    as (g & Hg & Hgr).
  { by apply all_scores_rated_valid. }
  { by apply all_scores_rated_nonempty with b. }
  apply (card_of_rated σb b c g); [exact Hg | exact Hgr | exact Hbr | exact Hbc].
Qed.

Lemma dataset_gives_plausible_cards_witness :
  ∃ cards σ', onData [3%positive; 1%positive] "all" "high" mixed_state_two
              = Ok cards σ' ∧
              Forall plausible_card cards.
Proof.
  apply (dataset_gives_plausible_cards [3%positive; 1%positive] "all" "high"
           mixed_state_two).
  repeat constructor.
  - exists mixed_ratings. split; [reflexivity|]. split; [discriminate|].
    repeat constructor; simpl; lia.
  - exists sample_ratings. split; [reflexivity|]. split; [discriminate|].
    repeat constructor; simpl; lia.
Defined.

End Dataset.

(** ** The global average and the trust score *)

Section GlobalAverage.
Local Open Scope R_scope.

(** On a dataset whose ratings all have scores in 1..5, with at least one
    rating in all, [computeGlobalAverage] leaves a number between 1 and 5 in
    [globalAverage] and changes nothing else. *)
Theorem global_average_in_range σ :
  Forall (loaded σ) (businessesData σ) →
  valid_scores (all_scores (ratings_list σ (businessesData σ))) →
  all_scores (ratings_list σ (businessesData σ)) ≠ [] →
  ∃ g, computeGlobalAverage σ =
         Ok tt (State (businessesData σ) (Num g) (objects σ) (arrays σ)) ∧
       1 <= g <= 5.
Proof.
  intros Hl Hv Hne. rewrite (computeGlobalAverage_loaded σ Hl).
  destruct (raw_average_range _ Hv Hne) as (g & -> & Hg). by exists g.
Qed.

Lemma global_average_in_range_witness :
  ∃ g, computeGlobalAverage mixed_state_two =
         Ok tt (State [1%positive; 3%positive] (Num g)
                      (objects mixed_state_two) (arrays mixed_state_two)) ∧
       1 <= g <= 5.
Proof.
  apply (global_average_in_range mixed_state_two).
  - repeat constructor; [by exists sample_ratings | by exists mixed_ratings].
  - repeat constructor; simpl; lia.
  - discriminate.
Defined.





End GlobalAverage.

(** ** The storage order and the recent window *)

Section StorageOrder.







End StorageOrder.
